(** * A model of the cache-coherence benchmark (src/main.cpp)

    The program times how long [numThreads] threads need to increment a
    counter [Iterations] times each, for a private counter and for a counter
    shared by all threads, non-atomic and atomic under each memory order.

    The embedding follows the source top down:
    - machine integers ([int64_t], [size_t]) are [Z] and [N] with their
      wrap-around written out;
    - [std::memory_order] is the integer-valued enumeration it is in C++;
    - the class hierarchy under [Benchmark] is an inductive type whose
      constructors carry the template parameter and the data member of each
      class;
    - the body of [RunThread] is a small-step function on the thread's local
      frame and the object it runs on, one step per memory access of the
      counter;
    - [RunWithThreads] is an interleaving machine: the calling thread and the
      spawned threads take steps in the order a schedule gives; [join] blocks;
    - [Run] and [main] are the sequential loops of the source over it.

    What the model takes from the environment:
    - the schedule, and with it the readings of the clock, are arbitrary;
      properties are proved for all schedules, and a completing schedule is
      shown to exist wherever the call can return;
    - every function of the program is [noexcept], so an exception ends the
      process. [reserve] throws by contract when asked for more than
      [max_size()] elements, and that is modelled; within that bound the
      allocation and the creation of a thread are taken to succeed;
    - an unsynchronised [++] on the shared [volatile] counter, a data race
      in C++, is the interleaving of its read and its write with the steps
      of the other threads; overflow of a non-atomic [int64_t], undefined in
      C++, wraps like the atomic one. *)

From Stdlib Require Import ZArith String Ascii List Lia DecimalString.
From stdpp Require Import base option list strings.

Open Scope Z_scope.

(** ** Machine integers *)

(** [int64_t]: the value of [z] in two's complement on 64 bits.
    [std::atomic<int64_t>::fetch_add] is defined to wrap this way. *)
Definition wrap64 (z : Z) : Z := (z + 2 ^ 63) mod 2 ^ 64 - 2 ^ 63.

Definition INT64_MAX : Z := 2 ^ 63 - 1.

(** The values an [int64_t] can hold. *)
Definition int64 (z : Z) : Prop := - 2 ^ 63 ≤ z ≤ INT64_MAX.

(** [size_t] on the 64-bit targets the program is built for. *)
Definition SIZE_MAX : N := (2 ^ 64 - 1)%N.

(** [++x] on a [size_t]. *)
Definition size_succ (x : N) : N := ((x + 1) mod 2 ^ 64)%N.

(** [std::vector<std::thread>::max_size()], the largest length [reserve]
    accepts: [PTRDIFF_MAX / sizeof(std::thread)] on those targets, a
    [std::thread] being the eight bytes of its id. The properties below use
    of this value only that it is below [SIZE_MAX] and not below the thread
    counts they name. *)
Definition max_size : N := ((2 ^ 63 - 1) / 8)%N.

(** [constexpr const int Iterations = 500'000'000;] *)
Definition Iterations : Z := 500000000.

(** ** Output stream

    [std::cout] is buffered: [<<] appends to the buffer, [flush] hands the
    buffer to the terminal, [std::endl] writes a newline and flushes. *)

Record ostream := Ostream { written : string; buffer : string }.

Definition print (s : string) (o : ostream) : ostream :=
  {| written := written o; buffer := buffer o +:+ s |}.

Definition flush (o : ostream) : ostream :=
  {| written := written o +:+ buffer o; buffer := "" |}.

Definition newline : string := String "010" EmptyString.

Definition endl (o : ostream) : ostream := flush (print newline o).

(** [operator<<] on a [size_t] and on a [long]. *)
Definition dec_size (n : N) : string := NilZero.string_of_uint (N.to_uint n).
Definition dec_long (z : Z) : string := NilZero.string_of_int (Z.to_int z).

(** ** Memory orders *)

(** [std::memory_order] is an enumeration over [int]; its six enumerators
    take the values 0 to 5 in declaration order. *)
Definition memory_order := Z.

Definition memory_order_relaxed : memory_order := 0.
Definition memory_order_consume : memory_order := 1.
Definition memory_order_acquire : memory_order := 2.
Definition memory_order_release : memory_order := 3.
Definition memory_order_acq_rel : memory_order := 4.
Definition memory_order_seq_cst : memory_order := 5.

(** [GetMemoryOrderRepr]: the switch of the source, one case per enumerator.
    [None] is the [default] branch, [__builtin_unreachable()]: reaching it
    is undefined behaviour, so it yields no string. *)
Definition GetMemoryOrderRepr (order : memory_order) : option string :=
  if order =? memory_order_relaxed then Some "relaxed"%string
  else if order =? memory_order_consume then Some "consume"%string
  else if order =? memory_order_acquire then Some "acquire"%string
  else if order =? memory_order_release then Some "release"%string
  else if order =? memory_order_acq_rel then Some "acq_rel"%string
  else if order =? memory_order_seq_cst then Some "seq_cst"%string
  else None.

(** ** The benchmark classes *)

(** One constructor per concrete class; [Order] is the template parameter,
    [_counter] the data member of the two classes that own a counter. *)
Inductive Benchmark : Type :=
  | NonAtomicBaseline
  | NonAtomicBenchmark (_counter : Z)
  | AtomicBaseline (Order : memory_order)
  | AtomicBenchmark (Order : memory_order) (_counter : Z).

(** The constructors [NonAtomicBenchmark()] and [AtomicBenchmark<Order>()]:
    both have the member initialiser [_counter(0)]. *)
Definition new_NonAtomicBenchmark : Benchmark := NonAtomicBenchmark 0.
Definition new_AtomicBenchmark (Order : memory_order) : Benchmark :=
  AtomicBenchmark Order 0.

(** The shared counter of an object, for the classes that have one. *)
Definition shared_counter (b : Benchmark) : option Z :=
  match b with
  | NonAtomicBenchmark c | AtomicBenchmark _ c => Some c
  | NonAtomicBaseline | AtomicBaseline _ => None
  end.

(** The four overrides of [GetName]. *)
Definition GetName (b : Benchmark) : option string :=
  match b with
  | NonAtomicBaseline => Some "Non-atomic Baseline"%string
  | NonAtomicBenchmark _ => Some "Non-atomic Benchmark"%string
  | AtomicBaseline Order =>
      r ← GetMemoryOrderRepr Order;
      Some (("Atomic Baseline (" +:+ r) +:+ ")")
  | AtomicBenchmark Order _ =>
      r ← GetMemoryOrderRepr Order;
      Some (("Atomic Benchmark (" +:+ r) +:+ ")")
  end.

(** ** One worker thread: [RunThread] *)

(** The locals of one activation of [RunThread]: the loop variable [i], the
    local [counter] of the two baseline classes, and, for the two non-atomic
    classes, the value a [++] on the volatile counter has read and not yet
    written back. *)
Record frame := Frame { loc_i : Z; loc_counter : Z; loc_read : option Z }.

(** Entry of [RunThread]: [counter = 0] (baselines) and [i = 0]. *)
Definition frame_init : frame :=
  {| loc_i := 0; loc_counter := 0; loc_read := None |}.

(** The loop condition [i < Iterations] is false: the thread has returned. *)
Definition finished (f : frame) : bool := Iterations <=? loc_i f.

(** One step of the loop body on object [this].
    - [++counter] on a [volatile int64_t] is a read followed by a write of
      the value read plus one: two steps, so that steps of other threads can
      fall between them when the counter is shared;
    - [fetch_add(1, Order)] is one indivisible read-modify-write, whatever
      [Order] is: all read-modify-writes of one atomic object are totally
      ordered and each reads the value written just before it.
    [++i] closes the iteration ([i < Iterations] holds, so the [int] does not
    overflow). A finished thread has no step. *)
Definition RunThread_step (this : Benchmark) (f : frame)
    : option (Benchmark * frame) :=
  if finished f then None
  else
    match this with
    | NonAtomicBaseline =>
        match loc_read f with
        | None =>
            Some (this, {| loc_i := loc_i f; loc_counter := loc_counter f;
                           loc_read := Some (loc_counter f) |})
        | Some v =>
            Some (this, {| loc_i := loc_i f + 1; loc_counter := wrap64 (v + 1);
                           loc_read := None |})
        end
    | NonAtomicBenchmark c =>
        match loc_read f with
        | None =>
            Some (this, {| loc_i := loc_i f; loc_counter := loc_counter f;
                           loc_read := Some c |})
        | Some v =>
            Some (NonAtomicBenchmark (wrap64 (v + 1)),
                  {| loc_i := loc_i f + 1; loc_counter := loc_counter f;
                     loc_read := None |})
        end
    | AtomicBaseline _ =>
        Some (this, {| loc_i := loc_i f + 1;
                       loc_counter := wrap64 (loc_counter f + 1);
                       loc_read := loc_read f |})
    | AtomicBenchmark Order c =>
        Some (AtomicBenchmark Order (wrap64 (c + 1)),
              {| loc_i := loc_i f + 1; loc_counter := loc_counter f;
                 loc_read := loc_read f |})
    end.

(** ** One trial: [RunWithThreads] *)

(** Program points of the calling thread inside [RunWithThreads]. *)
Inductive pc : Type :=
  | PcPrint              (* cout << GetName() << ": numThreads = " << ... *)
  | PcFlush              (* cout.flush() *)
  | PcReserve            (* vector<thread> threads; threads.reserve(numThreads) *)
  | PcStart              (* startTime = now() *)
  | PcSpawn (i : N)      (* for (i = 0; i < numThreads; ++i) emplace_back *)
  | PcJoin (k : nat)     (* for (auto& t : threads) t.join() *)
  | PcEnd                (* endTime = now() *)
  | PcReport             (* cout << dur / 1ms << " ms" << endl *)
  | PcRet                (* returned *)
  | PcAbort.             (* std::terminate() *)

#[global] Instance pc_eq_dec : EqDecision pc.
Proof. solve_decision. Defined.

Record config := Config {
  this : Benchmark;
  cout : ostream;
  threads : list frame;
  startTime : Z;
  endTime : Z;
  at_pc : pc
}.

(** Who takes the next step: the calling thread, or the thread in slot [k]
    of [threads]. [now] is what [high_resolution_clock::now()] returns (in
    ticks of a nanosecond) should the calling thread read the clock in this
    step. *)
Inductive actor : Type :=
  | Main (now : Z)
  | Worker (k : nat).

Definition schedule := list actor.

(** The text printed before the threads start. *)
Definition line_prefix (name : string) (numThreads : N) : string :=
  ((name +:+ ": numThreads = ") +:+ dec_size numThreads) +:+ " ... ".

(** The text printed after the joins: [dur / std::chrono::milliseconds(1)]
    is the quotient of two durations, an integer division truncating
    towards zero. *)
Definition line_suffix (startTime endTime : Z) : string :=
  dec_long ((endTime - startTime) ÷ 1000000) +:+ " ms".

Definition set_pc (c : config) (p : pc) : config :=
  {| this := this c; cout := cout c; threads := threads c;
     startTime := startTime c; endTime := endTime c; at_pc := p |}.

Definition set_cout (c : config) (o : ostream) (p : pc) : config :=
  {| this := this c; cout := o; threads := threads c;
     startTime := startTime c; endTime := endTime c; at_pc := p |}.

(** One step of the calling thread. [reserve] throws [std::length_error]
    when [numThreads] exceeds [max_size()]; the exception leaves the
    [noexcept] function [RunWithThreads], which ends the process. [join] on
    a thread that has not finished blocks: no step. *)
Definition main_step (numThreads : N) (now : Z) (c : config) : option config :=
  match at_pc c with
  | PcPrint =>
      name ← GetName (this c);
      Some (set_cout c (print (line_prefix name numThreads) (cout c)) PcFlush)
  | PcFlush => Some (set_cout c (flush (cout c)) PcReserve)
  | PcReserve =>
      if (numThreads <=? max_size)%N
      then Some (set_pc c PcStart)
      else Some (set_pc c PcAbort)
  | PcStart =>
      Some {| this := this c; cout := cout c; threads := threads c;
              startTime := now; endTime := endTime c; at_pc := PcSpawn 0 |}
  | PcSpawn i =>
      (* [++i] cannot wrap: [i < numThreads] *)
      if (i <? numThreads)%N
      then Some {| this := this c; cout := cout c;
                   threads := threads c ++ [frame_init];
                   startTime := startTime c; endTime := endTime c;
                   at_pc := PcSpawn (i + 1) |}
      else Some (set_pc c (PcJoin 0))
  | PcJoin k =>
      match threads c !! k with
      | Some f => if finished f then Some (set_pc c (PcJoin (S k))) else None
      | None => Some (set_pc c PcEnd)
      end
  | PcEnd =>
      Some {| this := this c; cout := cout c; threads := threads c;
              startTime := startTime c; endTime := now; at_pc := PcReport |}
  | PcReport =>
      Some (set_cout c
              (endl (print (line_suffix (startTime c) (endTime c)) (cout c)))
              PcRet)
  | PcRet | PcAbort => None
  end.

(** One step of the thread in slot [k]: the lambda [[this]() { RunThread(); }]
    runs [RunThread] on the object the trial was called on. *)
Definition worker_step (k : nat) (c : config) : option config :=
  f ← threads c !! k;
  '(this', f') ← RunThread_step (this c) f;
  Some {| this := this'; cout := cout c; threads := <[k := f']> (threads c);
          startTime := startTime c; endTime := endTime c; at_pc := at_pc c |}.

Definition step (numThreads : N) (a : actor) (c : config) : option config :=
  match a with
  | Main now => main_step numThreads now c
  | Worker k => worker_step k c
  end.

(** Run a schedule; [None] when it asks for a step that cannot be taken. *)
Fixpoint exec (numThreads : N) (s : schedule) (c : config) : option config :=
  match s with
  | [] => Some c
  | a :: s' => c' ← step numThreads a c; exec numThreads s' c'
  end.

(** Entry of [RunWithThreads]: no thread yet; the two time points are not
    initialised. *)
Definition trial_start (b : Benchmark) (o : ostream) : config :=
  {| this := b; cout := o; threads := []; startTime := 0; endTime := 0;
     at_pc := PcPrint |}.

(** [RunWithThreads(numThreads)] on object [b] under schedule [s]: the
    object and the stream it leaves when the call returns. A call that has
    not returned, or has ended the process, gives nothing. *)
Definition RunWithThreads (numThreads : N) (s : schedule)
    (st : Benchmark * ostream) : option (Benchmark * ostream) :=
  c ← exec numThreads s (trial_start st.1 st.2);
  match at_pc c with
  | PcRet => Some (this c, cout c)
  | _ => None
  end.

(** ** The sweep: [Run] *)

(** The loop [for (size_t threads = 1; threads <= maxNumThreads; ++threads)],
    entered with loop variable [threads]. Each trial consumes one schedule;
    the list of schedules is also what the recursion descends on. The call
    returns when the loop condition fails and nothing is left to run; it
    does not when a trial does not (the process has ended, or the schedule
    stops short of the trial's return). *)
Fixpoint Run_loop (maxNumThreads threads : N) (ss : list schedule)
    (st : Benchmark * ostream) : option (Benchmark * ostream) :=
  if (threads <=? maxNumThreads)%N then
    match ss with
    | [] => None
    | s :: ss' =>
        st' ← RunWithThreads threads s st;
        Run_loop maxNumThreads (size_succ threads) ss' st'
    end
  else
    match ss with
    | [] => Some st
    | _ :: _ => None
    end.

Definition Run (maxNumThreads : N) (ss : list schedule)
    (st : Benchmark * ostream) : option (Benchmark * ostream) :=
  Run_loop maxNumThreads 1 ss st.

(** ** The entry point: [main] *)

(** [MEMORY_ORDER_LIST(h)]: the macro applies [h] to the six orders. *)
Definition MEMORY_ORDER_LIST {A : Type} (h : memory_order → A) : list A :=
  [ h memory_order_relaxed; h memory_order_consume; h memory_order_acquire;
    h memory_order_release; h memory_order_acq_rel; h memory_order_seq_cst ].

(** [ADD_BENCHMARK(t)]: [benchmarks.push_back(std::make_unique<t>())]. *)
Definition ADD_BENCHMARK (t : Benchmark) (benchmarks : list Benchmark)
    : list Benchmark :=
  benchmarks ++ [t].

Definition ADD_ATOMIC_BASELINE (order : memory_order) : Benchmark :=
  AtomicBaseline order.
Definition ADD_ATOMIC_BENCHMARK (order : memory_order) : Benchmark :=
  new_AtomicBenchmark order.

(** The vector [benchmarks] when the loop of [main] starts. *)
Definition benchmarks : list Benchmark :=
  fold_left (λ v t, ADD_BENCHMARK t v)
    (MEMORY_ORDER_LIST ADD_ATOMIC_BENCHMARK)
    (fold_left (λ v t, ADD_BENCHMARK t v)
       (MEMORY_ORDER_LIST ADD_ATOMIC_BASELINE)
       (ADD_BENCHMARK new_NonAtomicBenchmark
          (ADD_BENCHMARK NonAtomicBaseline []))).

(** [for (const auto& b : benchmarks) b->Run(10);] over the objects [bs]
    still to run; [sss] gives the schedules of each sweep. The objects are
    returned as the sweeps leave them. *)
Fixpoint main_loop (bs : list Benchmark) (sss : list (list schedule))
    (o : ostream) : option (list Benchmark * ostream) :=
  match bs, sss with
  | [], [] => Some ([], o)
  | b :: bs', ss :: sss' =>
      '(b', o') ← Run 10 ss (b, o);
      '(bs'', o'') ← main_loop bs' sss' o';
      Some (b' :: bs'', o'')
  | _, _ => None
  end.

(** [std::cout] when the program starts: nothing written, nothing pending. *)
Definition cout_init : ostream := {| written := ""; buffer := "" |}.

(** [main]: the exit code, the objects and the stream at [return 0]. *)
Definition main (sss : list (list schedule))
    : option (Z * list Benchmark * ostream) :=
  '(bs, o') ← main_loop benchmarks sss cout_init;
  Some (0, bs, o').

(** * Vocabulary of the statements

    Definitions the properties below are stated and proved with. None of
    them is part of the program. *)

(** ** Objects *)

(** Two objects of the same class (same template argument); the counter may
    differ. *)
Definition same_class (b b' : Benchmark) : Prop :=
  match b, b' with
  | NonAtomicBaseline, NonAtomicBaseline => True
  | NonAtomicBenchmark _, NonAtomicBenchmark _ => True
  | AtomicBaseline o, AtomicBaseline o' => o = o'
  | AtomicBenchmark o _, AtomicBenchmark o' _ => o = o'
  | _, _ => False
  end.

(** The two classes whose threads count on a local of their own. *)
Definition baseline (b : Benchmark) : Prop :=
  match b with
  | NonAtomicBaseline | AtomicBaseline _ => True
  | NonAtomicBenchmark _ | AtomicBenchmark _ _ => False
  end.

(** An object whose name is defined (its memory order is one of the six)
    and whose counter, if it has one, is an [int64_t] value. *)
Definition wf_benchmark (b : Benchmark) : Prop :=
  is_Some (GetName b) ∧ ∀ cv, shared_counter b = Some cv → int64 cv.

(** The argument with which [GetName] calls [GetMemoryOrderRepr]: the
    template parameter of the two atomic classes. The other two classes do
    not call it. *)
Definition repr_argument (b : Benchmark) : option memory_order :=
  match b with
  | AtomicBaseline Order | AtomicBenchmark Order _ => Some Order
  | NonAtomicBaseline | NonAtomicBenchmark _ => None
  end.

(** The six labels. *)
Definition order_labels : list string :=
  ["relaxed"; "consume"; "acquire"; "release"; "acq_rel"; "seq_cst"]%string.

(** The fourteen names, in the order of [benchmarks]. *)
Definition all_names : list string :=
  [ "Non-atomic Baseline"; "Non-atomic Benchmark";
    "Atomic Baseline (relaxed)"; "Atomic Baseline (consume)";
    "Atomic Baseline (acquire)"; "Atomic Baseline (release)";
    "Atomic Baseline (acq_rel)"; "Atomic Baseline (seq_cst)";
    "Atomic Benchmark (relaxed)"; "Atomic Benchmark (consume)";
    "Atomic Benchmark (acquire)"; "Atomic Benchmark (release)";
    "Atomic Benchmark (acq_rel)"; "Atomic Benchmark (seq_cst)" ]%string.

(** The names of the objects of [main], in order. *)
Definition benchmark_names : list string := omap GetName benchmarks.

(** ** Text *)

(** The line of one trial: the part printed before the threads start, the
    part printed after the joins, and the newline of [std::endl]. *)
Definition report_line (name : string) (numThreads : N) (startTime endTime : Z)
    : string :=
  line_prefix name numThreads +:+ (line_suffix startTime endTime +:+ newline).

(** The stream once the prefix of the line has been flushed. *)
Definition prefix_flushed (name : string) (numThreads : N) (o : ostream)
    : ostream :=
  flush (print (line_prefix name numThreads) o).

(** One printed line: the name, the thread count and the two clock readings
    it was made from. *)
Record row := Row {
  row_name : string;
  row_threads : N;
  row_start : Z;
  row_end : Z
}.

(** The text of a row. *)
Definition row_line (r : row) : string :=
  report_line (row_name r) (row_threads r) (row_start r) (row_end r).

(** The text of the rows, one after the other. *)
Fixpoint lines_text (rows : list row) : string :=
  match rows with
  | [] => ""
  | r :: rows' => row_line r +:+ lines_text rows'
  end.

(** What identifies the trial of a row. *)
Definition row_key (r : row) : string * N := (row_name r, row_threads r).

(** The number of newline characters of a text. *)
Fixpoint count_newlines (s : string) : nat :=
  match s with
  | EmptyString => 0
  | String a s' => (if Ascii.eqb a "010" then 1 else 0) + count_newlines s'
  end.

(** ** Sweeps *)

(** Trials with the thread counts [ks] one after the other, each started on
    what the one before returned: the specification [Run] is compared to. *)
Fixpoint trials (ks : list N) (ss : list schedule) (st : Benchmark * ostream)
    : option (Benchmark * ostream) :=
  match ks, ss with
  | [], [] => Some st
  | k :: ks', s :: ss' => st' ← RunWithThreads k s st; trials ks' ss' st'
  | _, _ => None
  end.

(** The thread counts [from], [from + 1], ... ([len] of them). *)
Definition counts_from (from : N) (len : nat) : list N :=
  map N.of_nat (seq (N.to_nat from) len).

(** The thread counts 1, 2, ..., [maxNumThreads]. *)
Definition thread_counts (maxNumThreads : N) : list N :=
  counts_from 1 (N.to_nat maxNumThreads).

(** The number of threads of all the trials together. *)
Definition sum_counts (ks : list N) : Z := foldr (λ k acc, Z.of_N k + acc) 0 ks.

(** The names and thread counts of the lines of a whole run, in order. *)
Definition expected_keys (names : list string) (maxNumThreads : N)
    : list (string * N) :=
  flat_map (λ name, map (pair name) (thread_counts maxNumThreads)) names.

(** ** Threads *)

(** A quantity summed over the threads of a trial. *)
Definition sum_frames (g : frame → Z) (l : list frame) : Z :=
  foldr (λ f acc, g f + acc) 0 l.

(** Iterations completed so far by the threads of a trial. *)
Definition work (l : list frame) : Z := sum_frames loc_i l.

(** In the two baseline classes the local counter of a thread counts its
    completed iterations; a value read and not yet written back is the
    counter's. *)
Definition private_ok (f : frame) : Prop :=
  loc_counter f = loc_i f ∧ ∀ v, loc_read f = Some v → v = loc_counter f.

(** A value read and not yet written back: only in the non-atomic
    classes, and the shared counter still holds it. *)
Definition read_ok (b : Benchmark) (v : Z) : Prop :=
  match b with
  | NonAtomicBaseline => True
  | NonAtomicBenchmark cv => v = cv
  | AtomicBaseline _ | AtomicBenchmark _ _ => False
  end.

(** A bound on the steps a thread still takes: two per iteration, one less
    when it has read and not yet written. *)
Definition frame_rem (f : frame) : Z :=
  2 * (Iterations - loc_i f)
  - match loc_read f with Some _ => 1 | None => 0 end.

(** ** Invariants of a trial

    A trial of [numThreads] threads on object [this0], entered with stream
    [cout0]. *)

Section Invariants.
Variable numThreads : N.
Variable this0 : Benchmark.
Variable cout0 : ostream.

(** Threads created so far, read off the program point. *)
Definition spawned (p : pc) : N :=
  match p with
  | PcPrint | PcFlush | PcReserve | PcStart | PcAbort => 0%N
  | PcSpawn i => i
  | PcJoin _ | PcEnd | PcReport | PcRet => numThreads
  end.

(** Threads joined so far. *)
Definition joined (c : config) : nat :=
  match at_pc c with
  | PcPrint | PcFlush | PcReserve | PcStart | PcSpawn _ | PcAbort => 0%nat
  | PcJoin k => k
  | PcEnd | PcReport | PcRet => length (threads c)
  end.

(** The prefix the trial prints (empty name if the object has none: the
    trial then stops before printing). *)
Definition trial_prefix : string :=
  line_prefix (default ""%string (GetName this0)) numThreads.

(** The stream at each program point. *)
Definition stream_at (c : config) : ostream :=
  match at_pc c with
  | PcPrint => cout0
  | PcFlush => print trial_prefix cout0
  | PcReserve | PcStart | PcSpawn _ | PcJoin _ | PcEnd | PcReport | PcAbort =>
      flush (print trial_prefix cout0)
  | PcRet =>
      endl (print (line_suffix (startTime c) (endTime c))
              (flush (print trial_prefix cout0)))
  end.

(** What holds of every configuration the trial can reach, whatever the
    schedule. *)
Definition trial_inv (c : config) : Prop :=
  same_class this0 (this c) ∧
  Forall (λ f, 0 ≤ loc_i f ≤ Iterations) (threads c) ∧
  N.of_nat (length (threads c)) = spawned (at_pc c) ∧
  (spawned (at_pc c) ≤ numThreads)%N ∧
  (∀ j f, (j < joined c)%nat → threads c !! j = Some f → finished f = true) ∧
  (at_pc c ≠ PcPrint → is_Some (GetName this0)) ∧
  cout c = stream_at c.

(** What holds in addition when [this0] is of a baseline class. *)
Definition private_inv (c : config) : Prop :=
  trial_inv c ∧ this c = this0 ∧
  Forall private_ok (threads c) ∧
  (∀ j f, threads c !! j = Some f → is_Some (loc_read f) →
          this0 = NonAtomicBaseline).

(** Threads that may have taken a step. *)
Definition started (c : config) : nat :=
  match at_pc c with
  | PcPrint | PcFlush | PcReserve | PcStart | PcSpawn _ | PcAbort => 0%nat
  | PcJoin k => S k
  | PcEnd | PcReport | PcRet => length (threads c)
  end.

(** The shared counter when the trial starts. *)
Definition counter0 : Z := default 0 (shared_counter this0).

(** What holds in addition along the serial schedule. *)
Definition serial_inv (c : config) : Prop :=
  trial_inv c ∧
  (∀ j f, (started c ≤ j)%nat → threads c !! j = Some f → f = frame_init) ∧
  (∀ j f v, threads c !! j = Some f → loc_read f = Some v →
     loc_i f < Iterations ∧ read_ok (this c) v) ∧
  (∀ cv, this c = NonAtomicBenchmark cv →
     cv = wrap64 (counter0 + work (threads c))).

(** A bound on the steps the calling thread still takes. *)
Definition main_rem (p : pc) : Z :=
  let n := Z.of_N numThreads in
  match p with
  | PcPrint => 2 * n + 8
  | PcFlush => 2 * n + 7
  | PcReserve => 2 * n + 6
  | PcStart => 2 * n + 5
  | PcSpawn i => Z.max 0 (n - Z.of_N i) + n + 4
  | PcJoin k => Z.max 0 (n - Z.of_nat k) + 3
  | PcEnd => 2
  | PcReport => 1
  | PcRet | PcAbort => 0
  end.

(** A bound on the steps the whole trial still takes, the threads not yet
    created included. *)
Definition steps_rem (c : config) : Z :=
  main_rem (at_pc c) + sum_frames frame_rem (threads c)
  + (Z.of_N numThreads - Z.of_nat (length (threads c))) * (2 * Iterations).

End Invariants.

(** What [reserve] has decided, read off the program point: the call goes
    on only with a thread count [reserve] accepts, and the process ends only
    on one it refuses. *)
Definition reserve_inv (numThreads : N) (c : config) : Prop :=
  match at_pc c with
  | PcPrint | PcFlush | PcReserve => True
  | PcStart | PcSpawn _ | PcJoin _ | PcEnd | PcReport | PcRet =>
      (numThreads ≤ max_size)%N
  | PcAbort => (max_size < numThreads)%N
  end.

(** The counter of an [AtomicBenchmark<Order>] object that held [c0] when
    the trial started is [c0] plus one per completed iteration. *)
Definition atomic_inv (Order : memory_order) (c0 : Z) (c : config) : Prop :=
  this c = AtomicBenchmark Order (wrap64 (c0 + work (threads c))).

(** The counter of a [NonAtomicBenchmark] object that held [c0] when the
    trial started, and every value read and not yet written back, lies
    between [c0] and [c0] plus the number of completed iterations:
    increments can be lost, never invented. *)
Definition racy_inv (numThreads : N) (c0 : Z) (cout0 : ostream) (c : config)
    : Prop :=
  trial_inv numThreads (NonAtomicBenchmark c0) cout0 c ∧
  (∃ cv, this c = NonAtomicBenchmark cv ∧ c0 ≤ cv ≤ c0 + work (threads c)) ∧
  (∀ j f v, threads c !! j = Some f → loc_read f = Some v →
            c0 ≤ v ≤ c0 + work (threads c)).

(** * Vocabulary of the further properties *)

From Stdlib Require Import DecimalPos DecimalN DecimalZ.

(** The two classes whose counter is a plain [volatile int64_t]. *)
Definition nonatomic (b : Benchmark) : Prop :=
  match b with
  | NonAtomicBaseline | NonAtomicBenchmark _ => True
  | AtomicBaseline _ | AtomicBenchmark _ _ => False
  end.

(** What every reachable configuration satisfies and progress needs: the
    shape of the trial, and that a thread between the read and the write of
    a [++] is of a non-atomic class and still inside its loop. *)
Definition live_inv (numThreads : N) (this0 : Benchmark) (cout0 : ostream)
    (c : config) : Prop :=
  trial_inv numThreads this0 cout0 c ∧
  ∀ j f v, threads c !! j = Some f → loc_read f = Some v →
           loc_i f < Iterations ∧ nonatomic (this c).

(** The steps a trial of [numThreads] threads takes at most: [2 * n + 8] of
    the calling thread and two per iteration of each thread. *)
Definition trial_steps_bound (numThreads : N) : Z :=
  2 * Z.of_N numThreads + 8 + Z.of_N numThreads * (2 * Iterations).

(** With a single thread nothing comes between the read and the write of a
    [++]: the counter of a [NonAtomicBenchmark] object that held [c0] when
    the trial started is [c0] plus the completed iterations, and a value
    read and not yet written back is the counter's. *)
Definition solo_inv (c0 : Z) (cout0 : ostream) (c : config) : Prop :=
  trial_inv 1 (NonAtomicBenchmark c0) cout0 c ∧
  ∃ cv, this c = NonAtomicBenchmark cv ∧
        cv = wrap64 (c0 + work (threads c)) ∧
        ∀ j f v, threads c !! j = Some f → loc_read f = Some v → v = cv.

(** Configuration [c] once the object has become [b] and the thread in slot
    [k] has reached frame [f]. *)
Definition with_thread (c : config) (b : Benchmark) (k : nat) (f : frame)
    : config :=
  {| this := b; cout := cout c; threads := <[k := f]> (threads c);
     startTime := startTime c; endTime := endTime c; at_pc := at_pc c |}.

(** Thread [k] alone takes the steps of [m] increments of a non-atomic
    counter: a read and a write each. *)
Definition alone (k : nat) (m : nat) : schedule := repeat (Worker k) (m * 2).

(** A schedule of two threads on the non-atomic shared counter: thread 0
    reads the counter; thread 1 runs its whole loop ([m] iterations); thread
    0 writes back what it read plus one, over all that thread 1 has written,
    and runs the rest of its loop ([m'] iterations). *)
Definition lossy_schedule (m m' : nat) : schedule :=
  [Main 0; Main 0; Main 0; Main 0; Main 0; Main 0; Main 0]
  ++ [Worker 0] ++ alone 1 m ++ [Worker 0] ++ alone 0 m'
  ++ [Main 0; Main 0; Main 0; Main 0; Main 0].

(** [INT_MAX], the largest value of the [int] loop variable. *)
Definition INT_MAX : Z := 2 ^ 31 - 1.

(** The object [b] of [main] after its sweep [Run(10)]: a baseline object is
    as it was, an atomic shared counter holds the 55 loops of the ten
    trials, a non-atomic one at least the loop of the first trial and at
    most the 55. *)
Definition after_sweep (b b' : Benchmark) : Prop :=
  match b with
  | NonAtomicBaseline | AtomicBaseline _ => b' = b
  | AtomicBenchmark Order _ => b' = AtomicBenchmark Order (55 * Iterations)
  | NonAtomicBenchmark _ =>
      ∃ cv, b' = NonAtomicBenchmark cv ∧ Iterations ≤ cv ≤ 55 * Iterations
  end.

(** A step of the calling thread. *)
Definition is_main (a : actor) : Prop :=
  match a with Main _ => True | Worker _ => False end.

(** Reading back what [operator<<] printed for a [size_t] and for a
    [long]. *)
Definition parse_size (s : string) : option N :=
  N.of_uint <$> NilZero.uint_of_string s.
Definition parse_long (s : string) : option Z :=
  Z.of_int <$> NilZero.int_of_string s.

(** The text has no blank. *)
Fixpoint no_blank (s : string) : Prop :=
  match s with
  | EmptyString => True
  | String a s' => a ≠ " "%char ∧ no_blank s'
  end.

(** The same step with another reading of the clock. *)
Definition retime (g : Z → Z) (a : actor) : actor :=
  match a with
  | Main now => Main (g now)
  | Worker k => Worker k
  end.

(** Two configurations that differ at most in the stream and in the time
    points. *)
Definition same_run (c d : config) : Prop :=
  this c = this d ∧ threads c = threads d ∧ at_pc c = at_pc d.

(** * Properties *)

(** ** The model at work *)

Example wrap64_max : wrap64 (INT64_MAX + 1) = - 2 ^ 63.
Proof. reflexivity. Qed.

Example size_succ_max : size_succ SIZE_MAX = 0%N.
Proof. reflexivity. Qed.

Example GetMemoryOrderRepr_acq_rel :
  GetMemoryOrderRepr memory_order_acq_rel = Some "acq_rel"%string.
Proof. reflexivity. Qed.

Example GetMemoryOrderRepr_other : GetMemoryOrderRepr 6 = None.
Proof. reflexivity. Qed.

Example GetName_atomic :
  GetName (new_AtomicBenchmark memory_order_seq_cst)
  = Some "Atomic Benchmark (seq_cst)"%string.
Proof. reflexivity. Qed.

(** A trial without threads: the line is printed, the duration (3.5 ms on
    the clock) in whole milliseconds. *)
Example trial_without_threads :
  RunWithThreads 0
    [Main 0; Main 0; Main 0; Main 1000; Main 0; Main 0; Main 3501000; Main 0]
    (NonAtomicBaseline, cout_init)
  = Some (NonAtomicBaseline,
          {| written := "Non-atomic Baseline: numThreads = 0 ... 3 ms"
                        +:+ newline;
             buffer := "" |}).
Proof. reflexivity. Qed.

(** [join] blocks while the thread is in its loop. *)
Example join_blocks :
  exec 1 [Main 0; Main 0; Main 0; Main 0; Main 0; Main 0; Main 0]
    (trial_start NonAtomicBaseline cout_init)
  = None.
Proof. reflexivity. Qed.

(** A thread count [reserve] refuses: the prefix of the line is on the
    terminal, no thread is created, the clock is not read, and the process
    ends. *)
Example reserve_aborts :
  exec SIZE_MAX [Main 5; Main 5; Main 5]
    (trial_start NonAtomicBaseline cout_init)
  = Some {| this := NonAtomicBaseline;
            cout := {| written := "Non-atomic Baseline: numThreads = "
                                  +:+ "18446744073709551615 ... ";
                       buffer := "" |};
            threads := []; startTime := 0; endTime := 0; at_pc := PcAbort |}.
Proof. reflexivity. Qed.

(** Two threads on the non-atomic shared counter: both read 0, then both
    write 1. Each has completed an iteration and one increment is lost. *)
Example lost_update :
  (c ← exec 2 [Main 0; Main 0; Main 0; Main 0; Main 0; Main 0;
               Worker 0; Worker 1; Worker 0; Worker 1]
         (trial_start new_NonAtomicBenchmark cout_init);
   Some (this c, map loc_i (threads c)))
  = Some (NonAtomicBenchmark 1, [1; 1]).
Proof. reflexivity. Qed.

(** On the atomic counter an increment is one step: none is lost. *)
Example atomic_update :
  (c ← exec 2 [Main 0; Main 0; Main 0; Main 0; Main 0; Main 0;
               Worker 0; Worker 1]
         (trial_start (new_AtomicBenchmark memory_order_relaxed) cout_init);
   Some (this c, map loc_i (threads c)))
  = Some (AtomicBenchmark memory_order_relaxed 2, [1; 1]).
Proof. reflexivity. Qed.

(** A thread runs as soon as it is created, before the next is. *)
Example early_start :
  (c ← exec 2 [Main 0; Main 0; Main 0; Main 0; Main 0; Worker 0; Main 0;
               Worker 1]
         (trial_start (AtomicBaseline memory_order_relaxed) cout_init);
   Some (map loc_counter (threads c)))
  = Some [1; 1].
Proof. reflexivity. Qed.

(** ** Machine integers *)

Lemma wrap64_small z : int64 z → wrap64 z = z.
Proof.
  unfold wrap64, int64, INT64_MAX. intros Hz.
  rewrite Z.mod_small by lia. lia.
Qed.

Lemma wrap64_range z : int64 (wrap64 z).
Proof.
  unfold wrap64, int64, INT64_MAX.
  pose proof (Z.mod_pos_bound (z + 2 ^ 63) (2 ^ 64)). lia.
Qed.

(** Wrapping an operand first does not change a wrapped sum. *)
Lemma wrap64_add_l a b : wrap64 (wrap64 a + b) = wrap64 (a + b).
Proof.
  unfold wrap64. f_equal.
  replace ((a + 2 ^ 63) mod 2 ^ 64 - 2 ^ 63 + b + 2 ^ 63)
    with ((a + 2 ^ 63) mod 2 ^ 64 + b) by lia.
  rewrite Zplus_mod_idemp_l. f_equal. lia.
Qed.

Lemma size_succ_small x : (x < SIZE_MAX)%N → size_succ x = (x + 1)%N.
Proof.
  unfold size_succ, SIZE_MAX. intros Hx. apply N.mod_small. lia.
Qed.

(** ** Classes and names *)

Lemma same_class_refl b : same_class b b.
Proof. by destruct b. Qed.

Lemma same_class_trans b1 b2 b3 :
  same_class b1 b2 → same_class b2 b3 → same_class b1 b3.
Proof. destruct b1, b2, b3; simpl; try done; congruence. Qed.

Lemma GetName_same_class b b' : same_class b b' → GetName b = GetName b'.
Proof. destruct b, b'; simpl; try done; by intros ->. Qed.

(** ** Steps of one thread *)

Lemma RunThread_step_inv b f b' f' :
  RunThread_step b f = Some (b', f') →
  loc_i f < Iterations ∧ same_class b b' ∧ loc_i f ≤ loc_i f' ≤ loc_i f + 1.
Proof.
  unfold RunThread_step, finished. intros H.
  destruct (Z.leb_spec Iterations (loc_i f)) as [|Hlt]; [done |].
  destruct b; repeat case_match; simplify_eq; simpl; repeat split; lia || done.
Qed.

Lemma RunThread_step_finished b f :
  finished f = true → RunThread_step b f = None.
Proof. unfold RunThread_step. by intros ->. Qed.

Lemma worker_step_inv k c c' :
  worker_step k c = Some c' →
  ∃ f b' f',
    threads c !! k = Some f ∧ RunThread_step (this c) f = Some (b', f') ∧
    c' = {| this := b'; cout := cout c; threads := <[k := f']> (threads c);
            startTime := startTime c; endTime := endTime c;
            at_pc := at_pc c |}.
Proof.
  unfold worker_step. intros H.
  destruct (threads c !! k) as [f|] eqn:Hk; simpl in H; [| done].
  destruct (RunThread_step (this c) f) as [[b' f']|] eqn:Hs; simpl in H; [| done].
  simplify_eq. by exists f, b', f'.
Qed.

(** ** Schedules *)

(** A property kept by every step holds after every schedule. *)
Lemma exec_invariant n (P : config → Prop) :
  (∀ a c c', P c → step n a c = Some c' → P c') →
  ∀ s c c', P c → exec n s c = Some c' → P c'.
Proof.
  intros Hstep s. induction s as [|a s IH]; intros c c' HP H; simpl in H.
  - by simplify_eq.
  - destruct (step n a c) as [c1|] eqn:Hs; simpl in H; [| done].
    eapply IH; [| done]. by eapply Hstep.
Qed.

(** ** The length [reserve] accepts *)

Lemma max_size_lt_SIZE_MAX : (max_size < SIZE_MAX)%N.
Proof. reflexivity. Qed.

Lemma max_size_ge_10 : (10 ≤ max_size)%N.
Proof. by compute. Qed.

Lemma step_reserve_inv n a c c' :
  reserve_inv n c → step n a c = Some c' → reserve_inv n c'.
Proof.
  unfold reserve_inv. intros Hc Hs. destruct a as [now|k]; simpl in Hs.
  - unfold main_step in Hs.
    destruct (at_pc c) eqn:Hpc; try destruct (N.leb_spec n max_size);
      repeat case_match; simplify_option_eq; done.
  - apply worker_step_inv in Hs as (f & b' & f' & _ & _ & ->). done.
Qed.

Lemma exec_reserve_inv n s b o c :
  exec n s (trial_start b o) = Some c → reserve_inv n c.
Proof.
  apply (exec_invariant n (reserve_inv n)); [| done].
  intros a c1 c2. apply step_reserve_inv.
Qed.

(** A thread count [reserve] refuses: no thread is ever created, and the
    call does not return. *)
Lemma exec_refused n s b o c :
  (max_size < n)%N → exec n s (trial_start b o) = Some c →
  at_pc c = PcPrint ∨ at_pc c = PcFlush ∨ at_pc c = PcReserve ∨
  at_pc c = PcAbort.
Proof.
  intros Hn He. apply exec_reserve_inv in He. unfold reserve_inv in He.
  destruct (at_pc c); auto; lia.
Qed.

(** ** The shape of a trial

    What holds of every configuration a trial of [numThreads] threads on
    object [this0] with stream [cout0] can reach, whatever the schedule. *)

Section Trial.
Variable numThreads : N.
Variable this0 : Benchmark.
Variable cout0 : ostream.

Local Abbreviation trial_inv := (trial_inv numThreads this0 cout0).

Lemma trial_inv_start : trial_inv (trial_start this0 cout0).
Proof.
  unfold trial_inv, trial_start, stream_at, joined; simpl.
  split_and!; try done; try lia; try apply same_class_refl.
Qed.

(** Once the name has been printed it stays known. *)
Local Ltac keep_name :=
  match goal with
  | H : _ → is_Some (GetName _) |- _ → is_Some (GetName _) =>
      intros _; apply H; congruence
  end.

Lemma main_step_trial_inv now c c' :
  trial_inv c → main_step numThreads now c = Some c' → trial_inv c'.
Proof.
  intros (Hcl & Hi & Hlen & Hle & Hj & Hname & Hout) Hs.
  unfold main_step in Hs. unfold stream_at, joined in Hj, Hout.
  destruct (at_pc c) eqn:Hpc; simpl in *.
  - (* print *)
    destruct (GetName (this c)) as [name|] eqn:Hn; simpl in Hs; [| done].
    injection Hs as <-. rewrite <- (GetName_same_class _ _ Hcl) in Hn.
    unfold trial_inv, stream_at, joined, trial_prefix; simpl.
    rewrite Hn, Hout; simpl. split_and!; try done; try lia; try keep_name.
  - (* flush *)
    injection Hs as <-. unfold trial_inv, stream_at, joined; simpl.
    rewrite Hout. split_and!; try done; try lia; try keep_name.
  - (* reserve *)
    destruct (numThreads <=? max_size)%N; injection Hs as <-;
      unfold trial_inv, stream_at, joined, set_pc; simpl;
      split_and!; try done; try lia; try keep_name.
  - (* start time *)
    injection Hs as <-. unfold trial_inv, stream_at, joined; simpl.
    split_and!; try done; try lia; try keep_name.
  - (* spawn *)
    destruct (N.ltb_spec i numThreads) as [Hlt|Hge]; injection Hs as <-.
    + unfold trial_inv, stream_at, joined; simpl.
      split_and!; try done; try lia; try keep_name.
      * apply Forall_app; split; [done |].
        apply Forall_singleton; simpl. unfold Iterations. lia.
      * rewrite length_app; simpl. lia.
    + unfold trial_inv, stream_at, joined, set_pc; simpl.
      split_and!; try done; try lia; try keep_name.
  - (* join *)
    destruct (threads c !! k) as [f|] eqn:Hk.
    + destruct (finished f) eqn:Hf; [| done]. injection Hs as <-.
      unfold trial_inv, stream_at, joined, set_pc; simpl.
      split_and!; try done; try keep_name.
      intros j g Hlt Hg. destruct (decide (j = k)) as [->|Hne].
      * congruence.
      * apply (Hj j); [lia | done].
    + injection Hs as <-.
      unfold trial_inv, stream_at, joined, set_pc; simpl.
      split_and!; try done; try keep_name.
      intros j g Hlt Hg. apply (Hj j); [| done].
      apply lookup_ge_None in Hk. lia.
  - (* end time *)
    injection Hs as <-. unfold trial_inv, stream_at, joined; simpl.
    split_and!; try done; try keep_name.
  - (* report *)
    injection Hs as <-. unfold trial_inv, stream_at, joined, set_cout; simpl.
    rewrite Hout. split_and!; try done; try keep_name.
  - done.
  - done.
Qed.

Lemma worker_step_trial_inv k c c' :
  trial_inv c → worker_step k c = Some c' → trial_inv c'.
Proof.
  intros (Hcl & Hi & Hlen & Hle & Hj & Hname & Hout) Hs.
  apply worker_step_inv in Hs as (f & b' & f' & Hk & Hrun & ->).
  pose proof (RunThread_step_inv _ _ _ _ Hrun) as (Hlt & Hcl' & Hi').
  assert (0 ≤ loc_i f ≤ Iterations) as Hf
    by (eapply (Forall_lookup_1 _ _ _ _ Hi); done).
  unfold trial_inv, stream_at, joined in *; simpl in *.
  split_and!; try done.
  - by eapply same_class_trans.
  - apply Forall_insert; [done | lia].
  - by rewrite length_insert.
  - intros j g Hjlt Hg. rewrite length_insert in Hjlt.
    destruct (decide (j = k)) as [->|Hne].
    + (* a joined thread has finished and takes no step *)
      specialize (Hj k f Hjlt Hk).
      by rewrite (RunThread_step_finished _ _ Hj) in Hrun.
    + rewrite list_lookup_insert_ne in Hg by done. by apply (Hj j).
Qed.

Lemma step_trial_inv a c c' :
  trial_inv c → step numThreads a c = Some c' → trial_inv c'.
Proof.
  destruct a; simpl; [apply main_step_trial_inv | apply worker_step_trial_inv].
Qed.

Lemma exec_trial_inv s c :
  exec numThreads s (trial_start this0 cout0) = Some c → trial_inv c.
Proof.
  apply (exec_invariant numThreads trial_inv); [| apply trial_inv_start].
  intros a c1 c2. apply step_trial_inv.
Qed.

End Trial.

(** ** Counting the increments *)

Lemma sum_frames_app g l1 l2 :
  sum_frames g (l1 ++ l2) = sum_frames g l1 + sum_frames g l2.
Proof. induction l1 as [|f l1 IH]; simpl; lia. Qed.

Lemma sum_frames_insert g l k f f' :
  l !! k = Some f → sum_frames g (<[k := f']> l) = sum_frames g l - g f + g f'.
Proof.
  revert k. induction l as [|h l IH]; intros [|k] Hk; simpl in *; try done.
  - simplify_eq. lia.
  - rewrite (IH k Hk). lia.
Qed.

Lemma work_app l1 l2 : work (l1 ++ l2) = work l1 + work l2.
Proof. apply sum_frames_app. Qed.

Lemma work_insert l k f f' :
  l !! k = Some f → work (<[k := f']> l) = work l - loc_i f + loc_i f'.
Proof. apply sum_frames_insert. Qed.

Lemma work_all_done l :
  Forall (λ f, loc_i f = Iterations) l → work l = Z.of_nat (length l) * Iterations.
Proof.
  induction 1 as [|f l Hf _ IH]; simpl; [done |]. rewrite IH, Hf. lia.
Qed.

Lemma work_bounds l :
  Forall (λ f, 0 ≤ loc_i f ≤ Iterations) l →
  0 ≤ work l ≤ Z.of_nat (length l) * Iterations.
Proof.
  induction 1 as [|f l Hf _ IH]; simpl; [done |]. lia.
Qed.

(** When the call has returned, every thread has run its loop to the end. *)
Lemma trial_inv_ret n b o c :
  trial_inv n b o c → at_pc c = PcRet →
  N.of_nat (length (threads c)) = n ∧
  Forall (λ f, loc_i f = Iterations) (threads c).
Proof.
  intros (_ & Hi & Hlen & _ & Hj & _ & _) Hpc.
  unfold joined in Hj. rewrite Hpc in Hlen, Hj. split; [done |].
  apply Forall_lookup_2. intros j f Hf.
  pose proof (Forall_lookup_1 _ _ _ _ Hi Hf) as Hb; simpl in Hb.
  assert (finished f = true) as Hfin.
  { apply (Hj j); [| done]. by eapply lookup_lt_Some. }
  unfold finished in Hfin. apply Z.leb_le in Hfin. lia.
Qed.

(** Unfolding of a returned call. *)
Lemma RunWithThreads_inv n s b o b' o' :
  RunWithThreads n s (b, o) = Some (b', o') →
  ∃ c, exec n s (trial_start b o) = Some c ∧ at_pc c = PcRet ∧
       this c = b' ∧ cout c = o'.
Proof.
  unfold RunWithThreads; simpl. intros H.
  destruct (exec n s (trial_start b o)) as [c|] eqn:He; simpl in H; [| done].
  exists c. destruct (at_pc c); by simplify_eq.
Qed.

(** A call returns only with a thread count [reserve] accepts. *)
Lemma RunWithThreads_accepted n s st st' :
  RunWithThreads n s st = Some st' → (n ≤ max_size)%N.
Proof.
  destruct st as [b o], st' as [b' o']. intros H.
  apply RunWithThreads_inv in H as (c & He & Hpc & _).
  apply exec_reserve_inv in He. unfold reserve_inv in He. by rewrite Hpc in He.
Qed.

(** *** The shared atomic counter *)

Section AtomicShared.
Variable numThreads : N.
Variable Order : memory_order.
Variable c0 : Z.

Local Abbreviation atomic_inv := (atomic_inv Order c0).

Lemma step_atomic_inv a c c' :
  atomic_inv c → step numThreads a c = Some c' → atomic_inv c'.
Proof.
  unfold atomic_inv. intros Hc Hs. destruct a as [now|k]; simpl in Hs.
  - unfold main_step in Hs.
    destruct (at_pc c); repeat case_match; simplify_option_eq; try done.
    rewrite work_app; simpl. rewrite Hc. do 2 f_equal. lia.
  - apply worker_step_inv in Hs as (f & b' & f' & Hk & Hrun & ->); simpl.
    rewrite (work_insert _ _ _ _ Hk).
    unfold RunThread_step in Hrun. rewrite Hc in Hrun.
    destruct (finished f); simplify_eq; simpl.
    rewrite wrap64_add_l. do 2 f_equal. lia.
Qed.

Lemma atomic_inv_start o :
  int64 c0 → atomic_inv (trial_start (AtomicBenchmark Order c0) o).
Proof.
  intros H0. unfold atomic_inv; simpl. rewrite Z.add_0_r.
  by rewrite wrap64_small.
Qed.

(** After the call, under any schedule: one increment per iteration of
    every thread, none lost. *)
Lemma atomic_trial_counter s o b' o' :
  int64 c0 →
  RunWithThreads numThreads s (AtomicBenchmark Order c0, o) = Some (b', o') →
  b' = AtomicBenchmark Order (wrap64 (c0 + Z.of_N numThreads * Iterations)).
Proof.
  intros H0 H.
  apply RunWithThreads_inv in H as (c & He & Hpc & <- & _).
  pose proof (exec_trial_inv _ _ _ _ _ He) as Hinv.
  apply (trial_inv_ret _ _ _ _ Hinv) in Hpc as [Hlen Hdone].
  assert (atomic_inv c) as Hc.
  { eapply (exec_invariant numThreads atomic_inv); [| | exact He].
    - intros a c1 c2. apply step_atomic_inv.
    - by apply atomic_inv_start. }
  rewrite Hc, (work_all_done _ Hdone). do 3 f_equal. lia.
Qed.

End AtomicShared.

(** ** A trial has a schedule that completes it, if [reserve] accepts

    The serial schedule: the calling thread runs whenever it can, and while
    it waits in [join] for thread [k], thread [k] runs. Under it the threads
    run one after the other, so that no increment of one falls between the
    read and the write of another. *)

Lemma RunThread_step_progress b f :
  finished f = false → is_Some (RunThread_step b f).
Proof.
  unfold RunThread_step. intros ->. destruct b; repeat case_match; eauto.
Qed.

Section Serial.
Variable numThreads : N.
Variable this0 : Benchmark.
Variable cout0 : ostream.

Local Abbreviation serial_inv := (serial_inv numThreads this0 cout0).
Local Abbreviation main_rem := (main_rem numThreads).
Local Abbreviation steps_rem := (steps_rem numThreads).

Lemma serial_inv_start :
  (∀ cv, this0 = NonAtomicBenchmark cv → int64 cv) →
  serial_inv (trial_start this0 cout0).
Proof.
  intros H0. split; [apply trial_inv_start |]. simpl. split_and!; try done.
  intros cv Hcv. unfold counter0. rewrite Hcv; simpl.
  rewrite Z.add_0_r, wrap64_small; [done | by apply H0].
Qed.

Lemma main_step_serial_inv now c c' :
  serial_inv c → main_step numThreads now c = Some c' → serial_inv c'.
Proof.
  intros (Hinv & Hinit & Hread & Hcnt) Hs.
  split; [by eapply main_step_trial_inv |].
  unfold main_step in Hs. unfold started in *.
  destruct (at_pc c) eqn:Hpc; repeat case_match; simplify_option_eq;
    try (split_and!;
         [ intros j g Hj Hg;
           first [ apply (Hinit j g); [lia | done]
                 | apply lookup_lt_Some in Hg; lia ]
         | done | done ]).
  (* what is left: a thread is created *)
  assert (∀ j g, (threads c ++ [frame_init]) !! j = Some g → g = frame_init)
    as Hall.
  { intros j g Hg. apply lookup_app_Some in Hg as [Hg | [_ Hg]].
    - apply (Hinit j); [lia | done].
    - apply list_lookup_singleton_Some in Hg as [_ <-]. done. }
  split_and!.
    + intros j g _. apply Hall.
    + intros j g v Hg Hv. by rewrite (Hall _ _ Hg) in Hv.
    + intros cv Hcv. rewrite work_app; simpl. rewrite (Hcnt cv Hcv).
      f_equal. lia.
Qed.

Lemma worker_step_serial_inv k c c' :
  serial_inv c → at_pc c = PcJoin k → worker_step k c = Some c' →
  serial_inv c'.
Proof.
  intros (Hinv & Hinit & Hread & Hcnt) Hpc Hs.
  split; [by eapply worker_step_trial_inv |].
  destruct Hinv as (_ & _ & _ & _ & Hj & _ & _).
  unfold started, joined in *. rewrite Hpc in Hinit, Hj.
  apply worker_step_inv in Hs as (f & b' & f' & Hk & Hrun & ->); simpl.
  rewrite Hpc.
  (* no other thread is between its read and its write *)
  assert (∀ j g, j ≠ k → threads c !! j = Some g → loc_read g = None)
    as Hothers.
  { intros j g Hne Hg. destruct (loc_read g) as [v|] eqn:Hv; [| done].
    destruct (Hread j g v Hg Hv) as [Hlt _].
    destruct (decide (j < k)%nat) as [Hjk|Hjk].
    - specialize (Hj j g Hjk Hg). unfold finished in Hj.
      apply Z.leb_le in Hj. lia.
    - rewrite (Hinit j g) in Hv by (done || lia). done. }
  pose proof (RunThread_step_inv _ _ _ _ Hrun) as (Hlt & _ & _).
  assert (∀ v, loc_read f = Some v → read_ok (this c) v) as Hpend
    by (intros v Hv; by apply (Hread k f v)).
  assert (k < length (threads c))%nat as Hklen by (by eapply lookup_lt_Some).
  unfold RunThread_step in Hrun.
  destruct (finished f) eqn:Hfin; [done |].
  split_and!.
  - intros j g Hjk Hg. rewrite list_lookup_insert_ne in Hg by lia.
    by apply (Hinit j).
  - intros j g v Hg Hv. destruct (decide (j = k)) as [->|Hne].
    + rewrite list_lookup_insert_eq in Hg by done. simplify_eq.
      destruct (this c) as [|cv|o|o cv] eqn:Hthis,
               (loc_read f) as [w|] eqn:Hw;
        simplify_eq; simpl in *; simplify_eq;
        try done; try (by destruct (Hpend _ eq_refl)).
    + rewrite list_lookup_insert_ne in Hg by done.
      by rewrite (Hothers j g Hne Hg) in Hv.
  - intros cv' Hcv'. rewrite (work_insert _ _ _ _ Hk).
    destruct (this c) as [|cv|o|o cv] eqn:Hthis,
             (loc_read f) as [w|] eqn:Hw;
      simplify_eq; simpl in *.
    + rewrite (Hpend _ eq_refl), (Hcnt _ eq_refl), wrap64_add_l.
      f_equal. lia.
    + rewrite (Hcnt _ eq_refl). f_equal. lia.
Qed.

(** *** Termination: a bound on the steps still to take *)

Lemma main_step_rem now c c' :
  trial_inv numThreads this0 cout0 c →
  main_step numThreads now c = Some c' → steps_rem c' < steps_rem c.
Proof.
  intros (_ & _ & Hlen & _) Hs. unfold main_step in Hs. unfold steps_rem.
  destruct (at_pc c) eqn:Hpc; repeat case_match; simplify_option_eq;
    try rewrite sum_frames_app, length_app; simpl; try lia.
  - apply N.ltb_lt in H. unfold frame_rem, Iterations; simpl. lia.
  - apply lookup_lt_Some in H. lia.
Qed.

Lemma worker_step_rem k c c' :
  worker_step k c = Some c' → steps_rem c' < steps_rem c.
Proof.
  intros Hs.
  apply worker_step_inv in Hs as (f & b' & f' & Hk & Hrun & ->).
  unfold steps_rem; simpl.
  rewrite (sum_frames_insert _ _ _ _ _ Hk), length_insert.
  assert (frame_rem f' < frame_rem f); [| lia].
  unfold RunThread_step in Hrun. unfold frame_rem.
  destruct (finished f), (this c), (loc_read f);
    simplify_eq; simpl; lia.
Qed.

Lemma steps_rem_pos c :
  serial_inv c → at_pc c ≠ PcRet → at_pc c ≠ PcAbort → 0 < steps_rem c.
Proof.
  intros ((_ & Hi & Hlen & Hle & _) & _ & Hread & _) Hpc Hpc'.
  assert (0 ≤ sum_frames frame_rem (threads c)) as Hsum.
  { assert (∀ j f, threads c !! j = Some f → 0 ≤ frame_rem f) as Hall.
    { intros j f Hf. pose proof (Forall_lookup_1 _ _ _ _ Hi Hf) as Hb.
      simpl in Hb. unfold frame_rem.
      destruct (loc_read f) as [v|] eqn:Hv; [| lia].
      destruct (Hread j f v Hf Hv). lia. }
    clear -Hall. induction (threads c) as [|f l IH]; simpl; [done |].
    pose proof (Hall 0%nat f eq_refl).
    assert (0 ≤ sum_frames frame_rem l); [| lia].
    apply IH. intros j g Hg. by apply (Hall (S j)). }
  unfold steps_rem.
  assert (0 < main_rem (at_pc c)) by (destruct (at_pc c); simpl; try done; lia).
  assert (Z.of_nat (length (threads c)) ≤ Z.of_N numThreads) by lia.
  unfold Iterations in *. nia.
Qed.

(** The serial schedule always has a next step until the call returns or
    the process ends. *)
Lemma serial_progress c :
  is_Some (GetName this0) → serial_inv c →
  at_pc c ≠ PcRet → at_pc c ≠ PcAbort →
  ∃ a c', step numThreads a c = Some c' ∧ serial_inv c' ∧
          steps_rem c' < steps_rem c.
Proof.
  intros [name Hname] Hinv Hpc Hpc'.
  assert (∀ now c', main_step numThreads now c = Some c' →
            ∃ a c', step numThreads a c = Some c' ∧ serial_inv c' ∧
                    steps_rem c' < steps_rem c) as Hmain.
  { intros now c' Hs. exists (Main now), c'. split_and!; [done | |].
    - by eapply main_step_serial_inv.
    - eapply main_step_rem; [apply Hinv | done]. }
  destruct (at_pc c) eqn:Hp; try done.
  - eapply (Hmain 0). unfold main_step. rewrite Hp.
    destruct Hinv as ((Hcl & _) & _).
    rewrite <- (GetName_same_class _ _ Hcl), Hname. reflexivity.
  - eapply (Hmain 0). unfold main_step. by rewrite Hp.
  - destruct (numThreads <=? max_size)%N eqn:Hle;
      eapply (Hmain 0); unfold main_step; rewrite Hp, Hle; reflexivity.
  - eapply (Hmain 0). unfold main_step. by rewrite Hp.
  - destruct (i <? numThreads)%N eqn:Hlt;
      eapply (Hmain 0); unfold main_step; rewrite Hp, Hlt; reflexivity.
  - destruct (threads c !! k) as [f|] eqn:Hk.
    + destruct (finished f) eqn:Hf.
      * eapply (Hmain 0). unfold main_step. by rewrite Hp, Hk, Hf.
      * destruct (RunThread_step_progress (this c) f Hf) as [[b' f'] Hrun].
        assert (worker_step k c =
                  Some {| this := b'; cout := cout c;
                          threads := <[k := f']> (threads c);
                          startTime := startTime c; endTime := endTime c;
                          at_pc := at_pc c |}) as Hs.
        { unfold worker_step. rewrite Hk; simpl. by rewrite Hrun. }
        eexists (Worker k), _. split_and!; [exact Hs | |].
        -- by eapply worker_step_serial_inv.
        -- by eapply worker_step_rem.
    + eapply (Hmain 0). unfold main_step. by rewrite Hp, Hk.
  - eapply (Hmain 0). unfold main_step. by rewrite Hp.
  - eapply (Hmain 0). unfold main_step. by rewrite Hp.
Qed.

(** From any configuration of the serial schedule the call can be run to
    its return, when [reserve] accepts the thread count. *)
Lemma serial_completes c :
  (numThreads ≤ max_size)%N → is_Some (GetName this0) →
  serial_inv c → reserve_inv numThreads c →
  ∃ s c', exec numThreads s c = Some c' ∧ at_pc c' = PcRet ∧ serial_inv c'.
Proof.
  intros Hsize Hname.
  assert (∀ c, reserve_inv numThreads c → at_pc c ≠ PcAbort) as Hgo.
  { intros c1 Hres Hpc. unfold reserve_inv in Hres. rewrite Hpc in Hres. lia. }
  assert (∀ m c, steps_rem c ≤ Z.of_nat m →
            serial_inv c → reserve_inv numThreads c →
            ∃ s c', exec numThreads s c = Some c' ∧ at_pc c' = PcRet ∧
                    serial_inv c') as Hind.
  { clear c. intros m. induction m as [|m IH]; intros c Hm Hinv Hres.
    - destruct (decide (at_pc c = PcRet)) as [Hpc|Hpc].
      + by exists [], c.
      + pose proof (steps_rem_pos c Hinv Hpc (Hgo c Hres)). lia.
    - destruct (decide (at_pc c = PcRet)) as [Hpc|Hpc].
      + by exists [], c.
      + destruct (serial_progress c Hname Hinv Hpc (Hgo c Hres))
          as (a & c1 & Hs & Hinv1 & Hlt).
        pose proof (step_reserve_inv _ _ _ _ Hres Hs) as Hres1.
        destruct (IH c1 ltac:(lia) Hinv1 Hres1) as (s & c' & He & Hret & Hinv').
        exists (a :: s), c'. simpl. rewrite Hs. done. }
  intros Hinv Hres.
  apply (Hind (Z.to_nat (steps_rem c))); [lia | done | done].
Qed.

End Serial.

(** Every trial of a thread count [reserve] accepts can be run to its
    return; run serially, the non-atomic shared counter too receives every
    increment. *)
Lemma serial_trial n b o :
  (n ≤ max_size)%N →
  is_Some (GetName b) → (∀ cv, b = NonAtomicBenchmark cv → int64 cv) →
  ∃ s b' o',
    RunWithThreads n s (b, o) = Some (b', o') ∧
    ∀ cv, b = NonAtomicBenchmark cv →
          b' = NonAtomicBenchmark (wrap64 (cv + Z.of_N n * Iterations)).
Proof.
  intros Hsize Hname H0.
  destruct (serial_completes n b o _ Hsize Hname (serial_inv_start n b o H0) I)
    as (s & c & He & Hpc & Hinv & _ & _ & Hcnt).
  exists s, (this c), (cout c). split.
  - unfold RunWithThreads; simpl. rewrite He; simpl. by rewrite Hpc.
  - intros cv ->.
    destruct (trial_inv_ret _ _ _ _ Hinv Hpc) as [Hlen Hdone].
    destruct Hinv as (Hcl & _). destruct (this c) as [|cv'| |] eqn:Hthis; try done.
    rewrite (Hcnt cv' eq_refl), (work_all_done _ Hdone).
    unfold counter0; simpl. do 3 f_equal. lia.
Qed.

(** *** The private counters *)

Section Private.
Variable numThreads : N.
Variable this0 : Benchmark.
Variable cout0 : ostream.
Hypothesis Hbase : baseline this0.

Local Abbreviation private_inv := (private_inv numThreads this0 cout0).

Lemma step_private_inv a c c' :
  private_inv c → step numThreads a c = Some c' → private_inv c'.
Proof.
  intros (Hinv & Hthis & Hpriv & Hrd) Hs.
  split; [by eapply step_trial_inv |].
  destruct a as [now|k]; simpl in Hs.
  - unfold main_step in Hs.
    destruct (at_pc c); repeat case_match; simplify_option_eq;
      try (split_and!; done).
    split_and!; [done | |].
    + apply Forall_app; split; [done |]. by apply Forall_singleton.
    + intros j g Hg Hsome. apply lookup_app_Some in Hg as [Hg | [_ Hg]].
      * by apply (Hrd j g).
      * apply list_lookup_singleton_Some in Hg as [_ <-].
        by destruct Hsome.
  - destruct Hinv as (_ & Hi & _).
    apply worker_step_inv in Hs as (f & b' & f' & Hk & Hrun & ->); simpl.
    pose proof (Forall_lookup_1 _ _ _ _ Hi Hk) as Hb; simpl in Hb.
    pose proof (Forall_lookup_1 _ _ _ _ Hpriv Hk) as [Hcf Hvf].
    pose proof (RunThread_step_inv _ _ _ _ Hrun) as (Hlt & _ & _).
    assert (k < length (threads c))%nat as Hklen by (by eapply lookup_lt_Some).
    assert (wrap64 (loc_i f + 1) = loc_i f + 1) as Hw.
    { apply wrap64_small. unfold int64, INT64_MAX, Iterations in *. lia. }
    unfold RunThread_step in Hrun. rewrite Hthis in Hrun.
    destruct (finished f); [done |].
    assert (b' = this0 ∧ private_ok f' ∧
            (is_Some (loc_read f') → this0 = NonAtomicBaseline))
      as (-> & Hf' & Hrd').
    { destruct this0 as [|cv|o|o cv] eqn:Hb0; try done.
      - destruct (loc_read f) as [v|] eqn:Hv; simplify_eq;
          (split_and!; [done | | done]); split; simpl; try done.
        + rewrite (Hvf v eq_refl), Hcf. done.
        + by intros v ?; simplify_eq.
      - simplify_eq. split_and!; [done | |].
        + split; simpl; [by rewrite Hcf, Hw |].
          intros v Hv. by specialize (Hrd k f Hk (ex_intro _ v Hv)).
        + simpl. intros Hsome. by apply (Hrd k f Hk). }
    split_and!; [done | by apply Forall_insert |].
    intros j g Hg Hsome. destruct (decide (j = k)) as [->|Hne].
    + rewrite list_lookup_insert_eq in Hg by done. simplify_eq. by apply Hrd'.
    + rewrite list_lookup_insert_ne in Hg by done. by apply (Hrd j g).
Qed.

Lemma private_inv_start : private_inv (trial_start this0 cout0).
Proof.
  split; [apply trial_inv_start |]. simpl. split_and!; try done.
Qed.

(** At any point of the trial, a thread that has left its loop holds
    [Iterations] in its local counter. *)
Lemma private_finished_counter s c :
  exec numThreads s (trial_start this0 cout0) = Some c →
  Forall (λ f, finished f = true → loc_counter f = Iterations) (threads c).
Proof.
  intros He.
  assert (private_inv c) as ((_ & Hi & _) & _ & Hpriv & _).
  { eapply (exec_invariant numThreads private_inv); [| | exact He].
    - intros a c1 c2. apply step_private_inv.
    - apply private_inv_start. }
  apply Forall_lookup_2. intros j f Hf Hfin.
  pose proof (Forall_lookup_1 _ _ _ _ Hpriv Hf) as [Hcf _].
  pose proof (Forall_lookup_1 _ _ _ _ Hi Hf) as Hb. simpl in Hb.
  unfold finished in Hfin. apply Z.leb_le in Hfin. lia.
Qed.

(** After the call, under any schedule: the object is untouched, there are
    [numThreads] threads and each one's local counter is [Iterations]. *)
Lemma private_trial_counters s b' o' :
  RunWithThreads numThreads s (this0, cout0) = Some (b', o') →
  ∃ c, exec numThreads s (trial_start this0 cout0) = Some c ∧
       at_pc c = PcRet ∧ b' = this0 ∧
       N.of_nat (length (threads c)) = numThreads ∧
       Forall (λ f, loc_counter f = Iterations) (threads c).
Proof.
  intros H. apply RunWithThreads_inv in H as (c & He & Hpc & <- & _).
  assert (private_inv c) as (Hinv & Hthis & Hpriv & _).
  { eapply (exec_invariant numThreads private_inv); [| | exact He].
    - intros a c1 c2. apply step_private_inv.
    - apply private_inv_start. }
  destruct (trial_inv_ret _ _ _ _ Hinv Hpc) as [Hlen Hdone].
  exists c. split_and!; try done.
  apply Forall_lookup_2. intros j f Hf.
  pose proof (Forall_lookup_1 _ _ _ _ Hpriv Hf) as [Hcf _].
  pose proof (Forall_lookup_1 _ _ _ _ Hdone Hf) as Hif. simpl in Hif.
  lia.
Qed.

End Private.

(** ** What a trial prints *)

Lemma append_assoc (s1 s2 s3 : string) : (s1 +:+ s2) +:+ s3 = s1 +:+ (s2 +:+ s3).
Proof.
  induction s1 as [|a s1 IH]; [done |].
  change (String a ((s1 +:+ s2) +:+ s3) = String a (s1 +:+ (s2 +:+ s3))).
  by rewrite IH.
Qed.

Lemma append_nil_r (s : string) : s +:+ "" = s.
Proof.
  induction s as [|a s IH]; [done |].
  change (String a (s +:+ "") = String a s). by rewrite IH.
Qed.

Lemma report_written name n t0 t1 o :
  endl (print (line_suffix t0 t1) (prefix_flushed name n o))
  = {| written := (written o +:+ buffer o) +:+ report_line name n t0 t1;
       buffer := "" |}.
Proof.
  unfold endl, flush, print, prefix_flushed, report_line; simpl. f_equal.
  change ("" +:+ line_suffix t0 t1) with (line_suffix t0 t1).
  by rewrite !append_assoc.
Qed.

(** A returned call has printed exactly its line, and nothing is pending. *)
Lemma RunWithThreads_output n s b o b' o' :
  RunWithThreads n s (b, o) = Some (b', o') →
  ∃ name t0 t1,
    GetName b = Some name ∧ same_class b b' ∧
    o' = {| written := (written o +:+ buffer o) +:+ report_line name n t0 t1;
            buffer := "" |}.
Proof.
  intros H. apply RunWithThreads_inv in H as (c & He & Hpc & <- & <-).
  pose proof (exec_trial_inv _ _ _ _ _ He) as (Hcl & _ & _ & _ & _ & Hname & Hout).
  destruct Hname as [name Hname]; [by rewrite Hpc |].
  exists name, (startTime c), (endTime c). split_and!; [done | done |].
  rewrite Hout. unfold stream_at, trial_prefix. rewrite Hpc, Hname; simpl.
  apply report_written.
Qed.

(** *** Well-formed objects *)

Lemma step_wf_benchmark n a c c' :
  wf_benchmark (this c) → step n a c = Some c' → wf_benchmark (this c').
Proof.
  intros [Hname Hcv] Hs. destruct a as [now|k]; simpl in Hs.
  - unfold main_step in Hs.
    destruct (at_pc c); repeat case_match; simplify_option_eq; by split.
  - apply worker_step_inv in Hs as (f & b' & f' & Hk & Hrun & ->); simpl.
    pose proof (RunThread_step_inv _ _ _ _ Hrun) as (_ & Hcl & _).
    split; [by rewrite <- (GetName_same_class _ _ Hcl) |].
    unfold RunThread_step in Hrun.
    destruct (finished f), (this c), (loc_read f); simplify_eq; simpl in *;
      intros cv' ?; simplify_eq; try apply wrap64_range; by apply Hcv.
Qed.

Lemma RunWithThreads_wf n s b o b' o' :
  wf_benchmark b → RunWithThreads n s (b, o) = Some (b', o') →
  wf_benchmark b'.
Proof.
  intros Hwf H. apply RunWithThreads_inv in H as (c & He & _ & <- & _).
  eapply (exec_invariant n (λ c, wf_benchmark (this c))); [| | exact He].
  - intros a c1 c2. apply step_wf_benchmark.
  - done.
Qed.

Lemma wf_benchmark_in_benchmarks b : b ∈ benchmarks → wf_benchmark b.
Proof.
  intros Hb. unfold benchmarks in Hb; simpl in Hb.
  unfold ADD_BENCHMARK, ADD_ATOMIC_BASELINE, ADD_ATOMIC_BENCHMARK,
    new_NonAtomicBenchmark, new_AtomicBenchmark in Hb; simpl in Hb.
  repeat (apply elem_of_cons in Hb as [-> | Hb]);
    try (by apply elem_of_nil in Hb);
    (split; [by eexists | intros cv ?; simplify_eq/=; try done]);
    unfold int64, INT64_MAX; lia.
Qed.

(** ** The sweep *)

Lemma counts_from_S from len :
  counts_from from (S len) = from :: counts_from (from + 1) len.
Proof.
  unfold counts_from; simpl. rewrite N2Nat.id.
  replace (N.to_nat (from + 1)) with (S (N.to_nat from)) by lia. done.
Qed.

Lemma counts_from_lookup from len i :
  (i < len)%nat → counts_from from len !! i = Some (from + N.of_nat i)%N.
Proof.
  intros Hi. unfold counts_from.
  rewrite list_lookup_fmap, lookup_seq_lt by done. simpl. f_equal. lia.
Qed.

Lemma trials_length ks ss st st' :
  trials ks ss st = Some st' → length ss = length ks.
Proof.
  revert ss st. induction ks as [|k ks IH]; intros [|s ss] st H;
    simpl in H; try done.
  destruct (RunWithThreads k s st) as [st1|]; simpl in H; [| done].
  simpl. f_equal. by eapply IH.
Qed.

(** The loop of [Run], entered at [threads], runs the trials from [threads]
    to [maxNumThreads] in increasing order, as long as the loop variable
    cannot pass [SIZE_MAX]. *)
Lemma Run_loop_trials maxNumThreads len : ∀ threads ss st,
  (maxNumThreads < SIZE_MAX)%N →
  (threads + N.of_nat len = maxNumThreads + 1)%N →
  Run_loop maxNumThreads threads ss st = trials (counts_from threads len) ss st.
Proof.
  induction len as [|len IH]; intros t ss st Hmax Ht.
  - destruct ss; simpl; destruct (N.leb_spec t maxNumThreads); done || lia.
  - rewrite counts_from_S.
    destruct ss as [|s ss]; simpl;
      (destruct (N.leb_spec t maxNumThreads); [| lia]); [done |].
    destruct (RunWithThreads t s st) as [st1|]; simpl; [| done].
    rewrite size_succ_small by lia. apply IH; lia.
Qed.

(** A sweep beyond [max_size()] does not return, whatever schedules it is
    given: the loop variable climbs one by one and, no later than at
    [max_size() + 1], a trial ends the process in [reserve]. The wrap of the
    loop variable at [SIZE_MAX] is never reached. *)
Lemma Run_loop_refused maxNumThreads ss : ∀ threads st,
  (max_size < maxNumThreads)%N → (threads ≤ max_size + 1)%N →
  Run_loop maxNumThreads threads ss st = None.
Proof.
  pose proof max_size_lt_SIZE_MAX as Hlt.
  induction ss as [|s ss IH]; intros t st Hmax Ht; simpl;
    (destruct (N.leb_spec t maxNumThreads); [| lia]); [done |].
  destruct (RunWithThreads t s st) as [st1|] eqn:Hrun; simpl; [| done].
  apply RunWithThreads_accepted in Hrun.
  apply IH; [done |]. rewrite size_succ_small; lia.
Qed.

(** The thread counts of a sweep do not exceed its bound. *)
Lemma counts_from_le from len m :
  (from + N.of_nat len ≤ m + 1)%N →
  Forall (λ k, (k ≤ m)%N) (counts_from from len).
Proof.
  intros Hm. apply Forall_lookup_2. intros i k Hk.
  assert (i < len)%nat as Hi.
  { apply lookup_lt_Some in Hk. unfold counts_from in Hk.
    by rewrite length_map, length_seq in Hk. }
  rewrite counts_from_lookup in Hk by done. simplify_eq. lia.
Qed.

Lemma thread_counts_le m m' :
  (m ≤ m')%N → Forall (λ k, (k ≤ m')%N) (thread_counts m).
Proof. intros Hm. apply counts_from_le. lia. Qed.

(** Every sweep of well-formed objects with thread counts [reserve]
    accepts has schedules that complete it. *)
Lemma trials_complete ks : ∀ b o,
  Forall (λ k, (k ≤ max_size)%N) ks →
  wf_benchmark b → ∃ ss st', trials ks ss (b, o) = Some st'.
Proof.
  induction ks as [|k ks IH]; intros b o Hks Hwf.
  - by exists [], (b, o).
  - apply Forall_cons in Hks as [Hk Hks].
    destruct (serial_trial k b o Hk) as (s & b1 & o1 & Hrun & _).
    { apply Hwf. }
    { intros cv ->. by apply Hwf. }
    destruct (IH b1 o1 Hks) as (ss & st' & Hss).
    { by eapply RunWithThreads_wf. }
    exists (s :: ss), st'. simpl. by rewrite Hrun.
Qed.

(** *** The shared counters over a sweep *)

Lemma sum_counts_from len : ∀ from,
  2 * sum_counts (counts_from from len)
  = Z.of_nat len * (2 * Z.of_N from + Z.of_nat len - 1).
Proof.
  induction len as [|len IH]; intros from; [simpl; lia |].
  rewrite counts_from_S. simpl sum_counts.
  specialize (IH (from + 1)%N). lia.
Qed.

Lemma sum_thread_counts m :
  sum_counts (thread_counts m) = Z.of_N m * (Z.of_N m + 1) / 2.
Proof.
  pose proof (sum_counts_from (N.to_nat m) 1) as H. fold (thread_counts m) in H.
  apply Z.div_unique_exact; [done |]. rewrite H. lia.
Qed.

(** [Iterations * m * (m + 1) / 2], the product read left to right. *)
Lemma sweep_total m :
  Iterations * Z.of_N m * (Z.of_N m + 1) / 2
  = sum_counts (thread_counts m) * Iterations.
Proof.
  pose proof (sum_counts_from (N.to_nat m) 1) as H. fold (thread_counts m) in H.
  symmetry. apply Z.div_unique_exact; [done |]. lia.
Qed.

(** The atomic counter after a sweep, under any schedules. *)
Lemma atomic_trials_counter Order ks : ∀ ss c0 o b' o',
  int64 c0 →
  trials ks ss (AtomicBenchmark Order c0, o) = Some (b', o') →
  b' = AtomicBenchmark Order (wrap64 (c0 + sum_counts ks * Iterations)).
Proof.
  induction ks as [|k ks IH]; intros [|s ss] c0 o b' o' H0 H;
    simpl in H; try done.
  - simplify_eq. simpl. by rewrite Z.add_0_r, wrap64_small.
  - destruct (RunWithThreads k s (AtomicBenchmark Order c0, o))
      as [[b1 o1]|] eqn:Hrun; simpl in H; [| done].
    apply atomic_trial_counter in Hrun; [| done]. subst b1.
    apply IH in H; [| apply wrap64_range]. rewrite H, wrap64_add_l.
    simpl sum_counts. do 2 f_equal. lia.
Qed.

(** The non-atomic counter after a sweep run serially: every increment
    arrives. *)
Lemma serial_trials_counter ks : ∀ c0 o,
  Forall (λ k, (k ≤ max_size)%N) ks → int64 c0 →
  ∃ ss o',
    trials ks ss (NonAtomicBenchmark c0, o)
    = Some (NonAtomicBenchmark (wrap64 (c0 + sum_counts ks * Iterations)), o').
Proof.
  induction ks as [|k ks IH]; intros c0 o Hks H0.
  - exists [], o. simpl. by rewrite Z.add_0_r, wrap64_small.
  - apply Forall_cons in Hks as [Hk Hks].
    destruct (serial_trial k (NonAtomicBenchmark c0) o Hk)
      as (s & b1 & o1 & Hrun & Hb1).
    { by eexists. }
    { intros cv ?; by simplify_eq. }
    rewrite (Hb1 c0 eq_refl) in Hrun.
    destruct (IH (wrap64 (c0 + Z.of_N k * Iterations)) o1 Hks)
      as (ss & o' & Hss); [apply wrap64_range |].
    exists (s :: ss), o'. cbn [trials]. rewrite Hrun.
    change (trials ks ss
              (NonAtomicBenchmark (wrap64 (c0 + Z.of_N k * Iterations)), o1)
            = Some (NonAtomicBenchmark
                      (wrap64 (c0 + sum_counts (k :: ks) * Iterations)), o')).
    rewrite Hss, wrap64_add_l. do 3 f_equal.
    change (sum_counts (k :: ks)) with (Z.of_N k + sum_counts ks).
    f_equal. lia.
Qed.

(** *** The shared non-atomic counter under any schedule *)

Section NonAtomicShared.
Variable numThreads : N.
Variable c0 : Z.
Variable cout0 : ostream.
Hypothesis Hc0 : int64 c0.
Hypothesis Hfit : c0 + Z.of_N numThreads * Iterations ≤ INT64_MAX.

Local Abbreviation racy_inv := (racy_inv numThreads c0 cout0).

Lemma step_racy_inv a c c' :
  racy_inv c → step numThreads a c = Some c' → racy_inv c'.
Proof.
  intros (Hinv & (cv & Hthis & Hcv) & Hrd) Hs.
  pose proof (step_trial_inv _ _ _ _ _ _ Hinv Hs) as Hinv'.
  split; [done |].
  destruct a as [now|k]; simpl in Hs.
  - unfold main_step in Hs.
    destruct (at_pc c); repeat case_match; simplify_option_eq;
      try (split; [by exists cv | done]).
    rewrite work_app; simpl. rewrite Z.add_0_r. split; [by exists cv |].
    intros j g v Hg Hv. apply lookup_app_Some in Hg as [Hg | [_ Hg]].
    + by apply (Hrd j g).
    + by apply list_lookup_singleton_Some in Hg as [_ <-].
  - destruct Hinv' as (_ & Hi' & Hlen' & Hle' & _).
    pose proof (work_bounds _ Hi') as Hwork'.
    apply worker_step_inv in Hs as (f & b' & f' & Hk & Hrun & ->).
    simpl in *.
    assert (k < length (threads c))%nat as Hklen by (by eapply lookup_lt_Some).
    rewrite (work_insert _ _ _ _ Hk) in *. rewrite length_insert in *.
    assert (work (threads c) - loc_i f + loc_i f'
            ≤ Z.of_N numThreads * Iterations) as Hn.
    { assert (Z.of_nat (length (threads c)) ≤ Z.of_N numThreads) by lia.
      unfold Iterations in *. nia. }
    clear Hwork' Hi' Hlen' Hle'.
    unfold RunThread_step in Hrun. rewrite Hthis in Hrun.
    destruct (finished f); [done |].
    destruct (loc_read f) as [w|] eqn:Hw; simplify_eq; simpl in *.
    + (* the write *)
      pose proof (Hrd k f w Hk Hw) as Hwb.
      assert (wrap64 (w + 1) = w + 1) as ->.
      { apply wrap64_small. unfold int64, INT64_MAX in *. lia. }
      split; [eexists; split; [done | lia] |].
      intros j g v Hg Hv. destruct (decide (j = k)) as [->|Hne].
      * rewrite list_lookup_insert_eq in Hg by done. by simplify_eq.
      * rewrite list_lookup_insert_ne in Hg by done.
        pose proof (Hrd j g v Hg Hv). lia.
    + (* the read *)
      split; [exists cv; split; [done | lia] |].
      intros j g v Hg Hv. destruct (decide (j = k)) as [->|Hne].
      * rewrite list_lookup_insert_eq in Hg by done. simplify_eq/=. lia.
      * rewrite list_lookup_insert_ne in Hg by done.
        pose proof (Hrd j g v Hg Hv). lia.
Qed.

Lemma racy_trial_counter s b' o' :
  RunWithThreads numThreads s (NonAtomicBenchmark c0, cout0) = Some (b', o') →
  ∃ cv, b' = NonAtomicBenchmark cv ∧
        c0 ≤ cv ≤ c0 + Z.of_N numThreads * Iterations.
Proof.
  intros H. apply RunWithThreads_inv in H as (c & He & Hpc & <- & _).
  assert (racy_inv c) as (Hinv & (cv & Hthis & Hcv) & _).
  { eapply (exec_invariant numThreads racy_inv); [| | exact He].
    - intros a c1 c2. apply step_racy_inv.
    - split; [apply trial_inv_start |]. simpl. split; [| done].
      exists c0. split; [done | lia]. }
  destruct (trial_inv_ret _ _ _ _ Hinv Hpc) as [Hlen Hdone].
  exists cv. split; [done |]. rewrite (work_all_done _ Hdone) in Hcv. lia.
Qed.

End NonAtomicShared.

(** Over a sweep: the non-atomic counter never decreases and never exceeds
    what it would hold had every increment arrived. *)
Lemma racy_trials_counter ks : ∀ ss c0 o b' o',
  int64 c0 → c0 + sum_counts ks * Iterations ≤ INT64_MAX →
  trials ks ss (NonAtomicBenchmark c0, o) = Some (b', o') →
  ∃ cv, b' = NonAtomicBenchmark cv ∧ c0 ≤ cv ≤ c0 + sum_counts ks * Iterations.
Proof.
  induction ks as [|k ks IH]; intros [|s ss] c0 o b' o' H0 Hfit H;
    simpl in H; try done.
  - simplify_eq. exists c0. simpl. split; [done | lia].
  - destruct (RunWithThreads k s (NonAtomicBenchmark c0, o))
      as [[b1 o1]|] eqn:Hrun; simpl in H; [| done].
    simpl sum_counts in *.
    assert (0 ≤ sum_counts ks) as Hks.
    { clear. induction ks; simpl; lia. }
    apply racy_trial_counter in Hrun as (c1 & -> & Hc1);
      [| done | unfold Iterations in *; nia].
    apply IH in H as (cv & -> & Hcv).
    + exists cv. split; [done | lia].
    + unfold int64, INT64_MAX, Iterations in *. nia.
    + unfold Iterations in *. nia.
Qed.

(** ** What the program prints *)

Lemma lines_text_app rows1 rows2 :
  lines_text (rows1 ++ rows2) = lines_text rows1 +:+ lines_text rows2.
Proof.
  induction rows1 as [|r rows1 IH]; simpl; [done |].
  by rewrite IH, append_assoc.
Qed.

(** A sweep prints the lines of its trials, in order, and leaves nothing
    pending. *)
Lemma trials_output name ks : ∀ ss b o b' o',
  GetName b = Some name → buffer o = ""%string →
  trials ks ss (b, o) = Some (b', o') →
  same_class b b' ∧
  ∃ rows,
    map row_key rows = map (pair name) ks ∧
    o' = {| written := written o +:+ lines_text rows; buffer := "" |}.
Proof.
  induction ks as [|k ks IH]; intros [|s ss] b o b' o' Hname Hbuf H;
    simpl in H; try done.
  - simplify_eq. split; [apply same_class_refl |]. exists []. split; [done |].
    simpl. rewrite append_nil_r. destruct o'; simpl in *. by subst.
  - destruct (RunWithThreads k s (b, o)) as [[b1 o1]|] eqn:Hrun;
      simpl in H; [| done].
    apply RunWithThreads_output in Hrun
      as (name' & t0 & t1 & Hname' & Hcl & ->).
    assert (name' = name) as -> by congruence.
    apply IH in H as (Hcl' & rows & Hkeys & ->); [| | done].
    2: { by rewrite <- (GetName_same_class _ _ Hcl). }
    split; [by eapply same_class_trans |].
    exists (Row name k t0 t1 :: rows). split; [simpl; by rewrite Hkeys |].
    simpl. unfold row_line; simpl. rewrite Hbuf, append_nil_r.
    by rewrite append_assoc.
Qed.

Lemma Run_10_trials ss st : Run 10 ss st = trials (thread_counts 10) ss st.
Proof.
  unfold Run, thread_counts.
  apply Run_loop_trials; [unfold SIZE_MAX |]; lia.
Qed.

Lemma main_loop_output bs : ∀ sss o bs' o',
  Forall (λ b, is_Some (GetName b)) bs → buffer o = ""%string →
  main_loop bs sss o = Some (bs', o') →
  Forall2 same_class bs bs' ∧
  ∃ rows,
    map row_key rows = expected_keys (omap GetName bs) 10 ∧
    o' = {| written := written o +:+ lines_text rows; buffer := "" |}.
Proof.
  induction bs as [|b bs IH]; intros [|ss sss] o bs' o' Hnames Hbuf H;
    simpl in H; try done.
  - simplify_eq. split; [constructor |]. exists []. split; [done |].
    simpl. rewrite append_nil_r. destruct o'; simpl in *. by subst.
  - apply Forall_cons in Hnames as [[name Hname] Hnames].
    destruct (Run 10 ss (b, o)) as [[b1 o1]|] eqn:Hrun; simpl in H; [| done].
    destruct (main_loop bs sss o1) as [[bs1 o2]|] eqn:Hloop;
      simpl in H; [| done].
    simplify_eq. rewrite Run_10_trials in Hrun.
    apply (trials_output name) in Hrun as (Hcl & rows1 & Hkeys1 & ->);
      [| done | done].
    apply IH in Hloop as (Hcls & rows2 & Hkeys2 & ->); [| done | done].
    split; [by constructor |].
    exists (rows1 ++ rows2). split.
    + simpl. rewrite Hname; simpl. unfold expected_keys in *; simpl.
      by rewrite map_app, Hkeys1, Hkeys2.
    + simpl. by rewrite lines_text_app, append_assoc.
Qed.

Lemma benchmarks_named : Forall (λ b, is_Some (GetName b)) benchmarks.
Proof.
  apply Forall_forall. intros b Hb. by apply wf_benchmark_in_benchmarks.
Qed.

(** What [main] returns: exit code 0, the objects in their order, and a
    stream holding the lines of the ten trials of each object, in order. *)
Lemma main_output sss code bs' o' :
  main sss = Some (code, bs', o') →
  code = 0 ∧ Forall2 same_class benchmarks bs' ∧
  ∃ rows,
    map row_key rows = expected_keys benchmark_names 10 ∧
    o' = {| written := lines_text rows; buffer := "" |}.
Proof.
  unfold main. intros H.
  destruct (main_loop benchmarks sss cout_init) as [[bs1 o1]|] eqn:Hloop;
    simpl in H; [| done].
  simplify_eq. split; [done |].
  by apply main_loop_output in Hloop; [| apply benchmarks_named |].
Qed.

(** The program can run to its end. *)
Lemma main_loop_complete bs : ∀ o,
  Forall wf_benchmark bs → ∃ sss r, main_loop bs sss o = Some r.
Proof.
  induction bs as [|b bs IH]; intros o Hwf.
  - by exists [], ([], o).
  - apply Forall_cons in Hwf as [Hb Hbs].
    destruct (trials_complete (thread_counts 10) b o) as (ss & [b1 o1] & Hss);
      [apply thread_counts_le, max_size_ge_10 | done |].
    destruct (IH o1 Hbs) as (sss & [bs1 o2] & Hsss).
    exists (ss :: sss), (b1 :: bs1, o2). simpl.
    rewrite Run_10_trials, Hss; simpl. by rewrite Hsss.
Qed.

Lemma main_complete : ∃ sss r, main sss = Some r.
Proof.
  destruct (main_loop_complete benchmarks cout_init) as (sss & [bs o] & H).
  { apply Forall_forall. intros b. apply wf_benchmark_in_benchmarks. }
  exists sss, (0, bs, o). unfold main. by rewrite H.
Qed.

(** *** Lines *)

Lemma count_newlines_app s1 s2 :
  count_newlines (s1 +:+ s2) = (count_newlines s1 + count_newlines s2)%nat.
Proof.
  induction s1 as [|a s1 IH]; [done |].
  change (count_newlines (String a (s1 +:+ s2))
          = (count_newlines (String a s1) + count_newlines s2)%nat).
  simpl. rewrite IH. lia.
Qed.

Lemma count_newlines_uint d :
  count_newlines (NilEmpty.string_of_uint d) = 0%nat.
Proof. induction d; simpl; done. Qed.

Lemma count_newlines_dec_size n : count_newlines (dec_size n) = 0%nat.
Proof.
  unfold dec_size, NilZero.string_of_uint.
  destruct (N.to_uint n) eqn:E; try done; rewrite <- E;
    apply count_newlines_uint.
Qed.

Lemma count_newlines_dec_long z : count_newlines (dec_long z) = 0%nat.
Proof.
  unfold dec_long, NilZero.string_of_int, NilZero.string_of_uint.
  destruct (Z.to_int z) as [d|d]; destruct d eqn:E; try done; rewrite <- E;
    simpl; rewrite ?count_newlines_uint; done.
Qed.

(** A line has one newline, its last character, when the name has none. *)
Lemma count_newlines_row r :
  count_newlines (row_name r) = 0%nat → count_newlines (row_line r) = 1%nat.
Proof.
  intros Hname. unfold row_line, report_line, line_prefix, line_suffix.
  rewrite !count_newlines_app, Hname, count_newlines_dec_size,
    count_newlines_dec_long. done.
Qed.

Lemma count_newlines_lines rows :
  Forall (λ r, count_newlines (row_name r) = 0%nat) rows →
  count_newlines (lines_text rows) = length rows.
Proof.
  induction 1 as [|r rows Hr _ IH]; simpl; [done |].
  by rewrite count_newlines_app, IH, count_newlines_row.
Qed.

Lemma benchmark_names_one_line :
  Forall (λ name, count_newlines name = 0%nat) benchmark_names.
Proof. vm_compute. repeat constructor. Qed.

Lemma expected_keys_names names m key :
  key ∈ expected_keys names m → key.1 ∈ names.
Proof.
  unfold expected_keys. intros H.
  apply list_elem_of_In, in_flat_map in H as (name & Hname & Hkey).
  apply in_map_iff in Hkey as (k & <- & _). simpl. by apply list_elem_of_In.
Qed.

(** The rows of a run of [main] carry names without a newline. *)
Lemma rows_one_line rows :
  map row_key rows = expected_keys benchmark_names 10 →
  Forall (λ r, count_newlines (row_name r) = 0%nat) rows.
Proof.
  intros Hkeys. apply Forall_forall. intros r Hr.
  assert (row_key r ∈ expected_keys benchmark_names 10) as Hin.
  { rewrite <- Hkeys. apply list_elem_of_fmap. by exists r. }
  apply expected_keys_names in Hin.
  by apply (proj1 (Forall_forall _ _) benchmark_names_one_line) in Hin.
Qed.

(** *** The stream during a trial *)


(** Once the joins are over, all [numThreads] threads exist and have
    finished; before, there are never more than [numThreads]. *)
Lemma trial_threads n b o s c :
  exec n s (trial_start b o) = Some c →
  (N.of_nat (length (threads c)) ≤ n)%N ∧
  (at_pc c = PcEnd ∨ at_pc c = PcReport ∨ at_pc c = PcRet →
   N.of_nat (length (threads c)) = n ∧
   Forall (λ f, finished f = true) (threads c)).
Proof.
  intros He.
  pose proof (exec_trial_inv _ _ _ _ _ He)
    as (_ & _ & Hlen & Hle & Hj & _ & _).
  split; [lia |]. unfold joined in Hj.
  intros Hpc. assert (spawned n (at_pc c) = n ∧ ∀ j f,
    (j < length (threads c))%nat → threads c !! j = Some f → finished f = true)
    as [Hn Hall].
  { destruct Hpc as [Hpc | [Hpc | Hpc]]; rewrite Hpc in *; by split. }
  split; [lia |].
  apply Forall_lookup_2. intros j f Hf. apply (Hall j); [| done].
  by eapply lookup_lt_Some.
Qed.

(** Each sweep of [main] takes ten schedules, one per trial. *)
Lemma main_loop_lengths bs : ∀ sss o r,
  main_loop bs sss o = Some r →
  length sss = length bs ∧ Forall (λ ss, length ss = 10%nat) sss.
Proof.
  induction bs as [|b bs IH]; intros [|ss sss] o r H; simpl in H; try done.
  destruct (Run 10 ss (b, o)) as [[b1 o1]|] eqn:Hrun; simpl in H; [| done].
  destruct (main_loop bs sss o1) as [[bs1 o2]|] eqn:Hloop;
    simpl in H; [| done].
  rewrite Run_10_trials in Hrun. apply trials_length in Hrun.
  apply IH in Hloop as [Hlen Hall]. split; [simpl; by rewrite Hlen |].
  by constructor.
Qed.

(** * The claims *)

(** ** Names *)

Lemma GetMemoryOrderRepr_None order :
  GetMemoryOrderRepr order = None ↔ order ∉ MEMORY_ORDER_LIST id.
Proof.
  unfold GetMemoryOrderRepr, MEMORY_ORDER_LIST, memory_order_relaxed,
    memory_order_consume, memory_order_acquire, memory_order_release,
    memory_order_acq_rel, memory_order_seq_cst, id.
  rewrite !not_elem_of_cons.
  destruct (Z.eqb_spec order 0);
    [split; [done | by intros (? & _)] |].
  destruct (Z.eqb_spec order 1);
    [split; [done | by intros (_ & ? & _)] |].
  destruct (Z.eqb_spec order 2);
    [split; [done | by intros (_ & _ & ? & _)] |].
  destruct (Z.eqb_spec order 3);
    [split; [done | by intros (_ & _ & _ & ? & _)] |].
  destruct (Z.eqb_spec order 4);
    [split; [done | by intros (_ & _ & _ & _ & ? & _)] |].
  destruct (Z.eqb_spec order 5);
    [split; [done | by intros (_ & _ & _ & _ & _ & ? & _)] |].
  split; [| done]. intros _. split_and!; try done. apply not_elem_of_nil.
Qed.

(** C10. [GetMemoryOrderRepr] is called only from the two [GetName]
    overrides of the atomic classes, with their template parameter; for
    every object [main] constructs that parameter is one of the six
    enumerators of [MEMORY_ORDER_LIST]. On those six the switch returns, in
    order, the six labels, which are pairwise distinct and non-empty; the
    [default] branch is taken exactly for the values outside the six, so the
    program never reaches it. *)
Theorem GetMemoryOrderRepr_covers_instantiated_orders :
  (∀ b order, b ∈ benchmarks → repr_argument b = Some order →
              order ∈ MEMORY_ORDER_LIST id) ∧
  MEMORY_ORDER_LIST GetMemoryOrderRepr = map Some order_labels ∧
  NoDup order_labels ∧
  Forall (λ r, r ≠ ""%string) order_labels ∧
  (∀ order, GetMemoryOrderRepr order = None ↔ order ∉ MEMORY_ORDER_LIST id) ∧
  (∀ b order, b ∈ benchmarks → repr_argument b = Some order →
              ∃ r, GetMemoryOrderRepr order = Some r ∧ r ∈ order_labels).
Proof.
  assert (∀ b order, b ∈ benchmarks → repr_argument b = Some order →
            order ∈ MEMORY_ORDER_LIST id) as Hargs.
  { intros b order Hb Harg. vm_compute in Hb.
    repeat (apply elem_of_cons in Hb as [-> | Hb]);
      try (by apply elem_of_nil in Hb); simpl in Harg; simplify_eq;
      unfold MEMORY_ORDER_LIST, id; repeat constructor. }
  split_and!; try done.
  - compute_done.
  - repeat constructor; done.
  - apply GetMemoryOrderRepr_None.
  - intros b order Hb Harg. specialize (Hargs b order Hb Harg).
    unfold MEMORY_ORDER_LIST, id in Hargs.
    repeat (apply elem_of_cons in Hargs as [-> | Hargs]);
      try (by apply elem_of_nil in Hargs);
      (eexists; split; [reflexivity | unfold order_labels; repeat constructor]).
Qed.

Lemma atomic_name_format base r :
  (base +:+ " (" +:+ r) +:+ ")" = base +:+ " (" +:+ r +:+ ")".
Proof. by rewrite !append_assoc. Qed.

(** C6. [GetName] returns fourteen pairwise distinct strings for the
    fourteen objects [main] constructs. The name is stable: it depends on
    the class and its memory order only, not on the counter, and a trial
    returns an object of the same name. The names of the atomic classes are
    the base name, a space, and the label of the memory order in
    parentheses, the label being one of the six for the six orders of
    [MEMORY_ORDER_LIST]. *)
Theorem GetName_distinct_and_stable :
  map GetName benchmarks = map Some all_names ∧
  length benchmarks = 14%nat ∧
  NoDup all_names ∧
  (∀ b b', same_class b b' → GetName b = GetName b') ∧
  (∀ n s b o b' o',
     RunWithThreads n s (b, o) = Some (b', o') → GetName b' = GetName b) ∧
  (∀ Order c r, GetMemoryOrderRepr Order = Some r →
     GetName (AtomicBaseline Order)
     = Some ("Atomic Baseline" +:+ " (" +:+ r +:+ ")") ∧
     GetName (AtomicBenchmark Order c)
     = Some ("Atomic Benchmark" +:+ " (" +:+ r +:+ ")")) ∧
  (∀ Order, Order ∈ MEMORY_ORDER_LIST id →
     ∃ r, GetMemoryOrderRepr Order = Some r ∧ r ∈ order_labels).
Proof.
  split_and!.
  - reflexivity.
  - reflexivity.
  - compute_done.
  - apply GetName_same_class.
  - intros n s b o b' o' H.
    apply RunWithThreads_output in H as (name & t0 & t1 & Hname & Hcl & _).
    symmetry. by apply GetName_same_class.
  - intros Order c r Hr. simpl. rewrite Hr. simpl.
    split; f_equal; by rewrite !append_assoc.
  - intros Order HO. unfold MEMORY_ORDER_LIST, id in HO.
    repeat (apply elem_of_cons in HO as [-> | HO]);
      try (by apply elem_of_nil in HO);
      (eexists; split; [reflexivity | unfold order_labels; repeat constructor]).
Qed.

(** ** The entry point *)

Lemma benchmark_names_eq : benchmark_names = all_names.
Proof. reflexivity. Qed.

Lemma thread_counts_10 : thread_counts 10 = [1; 2; 3; 4; 5; 6; 7; 8; 9; 10]%N.
Proof. reflexivity. Qed.

(** C7. [main] constructs fourteen objects in a fixed order: the two
    non-atomic ones (baseline, then shared), the six atomic baselines in the
    order relaxed, consume, acquire, release, acq_rel, seq_cst, then the six
    atomic shared ones in the same order of memory orders. It runs their
    sweeps one after the other in that order: a completed run has taken one
    list of schedules per object, returns the objects in the same order, and
    its output is the lines of the first object, then those of the second,
    and so on. *)
Theorem main_constructs_and_runs_in_order :
  MEMORY_ORDER_LIST id
  = [ memory_order_relaxed; memory_order_consume; memory_order_acquire;
      memory_order_release; memory_order_acq_rel; memory_order_seq_cst ] ∧
  benchmarks
  = [NonAtomicBaseline; new_NonAtomicBenchmark]
    ++ map AtomicBaseline (MEMORY_ORDER_LIST id)
    ++ map new_AtomicBenchmark (MEMORY_ORDER_LIST id) ∧
  length benchmarks = 14%nat ∧
  (∃ sss r, main sss = Some r) ∧
  (∀ sss code bs' o', main sss = Some (code, bs', o') →
     length sss = 14%nat ∧ Forall2 same_class benchmarks bs' ∧
     ∃ rows,
       written o' = lines_text rows ∧
       map row_name rows = flat_map (replicate 10) all_names).
Proof.
  split_and!; try reflexivity; [apply main_complete |].
  intros sss code bs' o' H.
  pose proof (main_output _ _ _ _ H) as (_ & Hcl & rows & Hkeys & ->).
  unfold main in H.
  destruct (main_loop benchmarks sss cout_init) as [r|] eqn:Hloop; [| done].
  apply main_loop_lengths in Hloop as [Hlen _].
  split_and!; [done | done |].
  exists rows. split; [done |].
  assert (map row_name rows = map fst (map row_key rows)) as ->.
  { rewrite map_map. done. }
  rewrite Hkeys. reflexivity.
Qed.

(** C9. The sweep bound is the constant 10 of the call [b->Run(10)] in
    [main], which takes no input: a completed run has run, for each of the
    fourteen objects, exactly ten trials, with the thread counts 1 to 10 in
    order, and has printed exactly 140 lines. *)
Theorem main_runs_ten_trials_per_benchmark :
  (∀ b bs ss sss o,
     main_loop (b :: bs) (ss :: sss) o
     = '(b', o') ← Run 10 ss (b, o);
       '(bs'', o'') ← main_loop bs sss o';
       Some (b' :: bs'', o'')) ∧
  thread_counts 10 = [1; 2; 3; 4; 5; 6; 7; 8; 9; 10]%N ∧
  (∃ sss r, main sss = Some r) ∧
  (∀ sss code bs' o', main sss = Some (code, bs', o') →
     length sss = 14%nat ∧ Forall (λ ss, length ss = 10%nat) sss ∧
     ∃ rows,
       length rows = 140%nat ∧
       map row_key rows = expected_keys all_names 10 ∧
       written o' = lines_text rows ∧
       count_newlines (written o') = 140%nat).
Proof.
  split_and!; try reflexivity; [apply main_complete |].
  intros sss code bs' o' H.
  pose proof (main_output _ _ _ _ H) as (_ & _ & rows & Hkeys & ->).
  unfold main in H.
  destruct (main_loop benchmarks sss cout_init) as [r|] eqn:Hloop; [| done].
  apply main_loop_lengths in Hloop as [Hlen Hten].
  assert (length rows = 140%nat) as Hrows.
  { rewrite <- (length_map row_key), Hkeys. reflexivity. }
  split_and!; [done | done |].
  exists rows. split_and!; try done. simpl.
  rewrite count_newlines_lines; [done | by apply rows_one_line].
Qed.


(** ** One trial *)

Lemma main_step_threads n now c c' :
  main_step n now c = Some c' →
  this c' = this c ∧
  (threads c' = threads c ∨ threads c' = threads c ++ [frame_init]).
Proof.
  unfold main_step. intros H.
  destruct (at_pc c); repeat case_match; simplify_option_eq; auto.
Qed.

Lemma wf_benchmark_atomic Order c0 :
  Order ∈ MEMORY_ORDER_LIST id → int64 c0 →
  wf_benchmark (AtomicBenchmark Order c0) ∧ wf_benchmark (AtomicBaseline Order).
Proof.
  intros HO H0. unfold MEMORY_ORDER_LIST, id in HO.
  repeat (apply elem_of_cons in HO as [-> | HO]);
    try (by apply elem_of_nil in HO);
    (split; (split; [by eexists | intros cv ?; by simplify_eq/=])).
Qed.

Lemma RunWithThreads_complete n b o :
  (n ≤ max_size)%N → wf_benchmark b →
  ∃ s b' o', RunWithThreads n s (b, o) = Some (b', o').
Proof.
  intros Hsize [Hname Hcv].
  destruct (serial_trial n b o Hsize Hname) as (s & b' & o' & H & _).
  { intros cv ->. by apply Hcv. }
  by exists s, b', o'.
Qed.

(** With a thread count [reserve] refuses, no thread is ever created and
    the call does not return. *)
Lemma refused_no_thread n s b o c :
  (max_size < n)%N → exec n s (trial_start b o) = Some c →
  threads c = [] ∧ at_pc c ≠ PcRet.
Proof.
  intros Hn He.
  pose proof (exec_trial_inv _ _ _ _ _ He) as (_ & _ & Hlen & _).
  apply (exec_refused _ _ _ _ _ Hn) in He.
  split.
  - apply length_zero_iff_nil.
    destruct He as [Hpc | [Hpc | [Hpc | Hpc]]]; rewrite Hpc in Hlen;
      simpl in Hlen; lia.
  - destruct He as [Hpc | [Hpc | [Hpc | Hpc]]]; by rewrite Hpc.
Qed.

Lemma RunWithThreads_refused n s st :
  (max_size < n)%N → RunWithThreads n s st = None.
Proof.
  intros Hn. destruct (RunWithThreads n s st) as [st'|] eqn:H; [| done].
  apply RunWithThreads_accepted in H. lia.
Qed.

(** C3, as the code has it. [RunWithThreads(n)] never has more than [n]
    threads, and from the end of the join loop on (when the end time is
    taken, the duration printed, the call returned) there are exactly [n]
    and every one has finished. Every step of a thread is a step of
    [RunThread] on the object of the trial, the same for all threads. A
    returned call has run each of its [n] threads through [Iterations]
    iterations and has printed the duration afterwards. For every
    well-formed object and every [n] up to [max_size()] the call can
    return; for a larger [n], [reserve] refuses: no thread is ever created
    and the call does not return. *)
Theorem RunWithThreads_spawns_and_joins (b : Benchmark) (n : N) (o : ostream) :
  (∀ s c, exec n s (trial_start b o) = Some c →
     (N.of_nat (length (threads c)) ≤ n)%N ∧
     (at_pc c = PcEnd ∨ at_pc c = PcReport ∨ at_pc c = PcRet →
      N.of_nat (length (threads c)) = n ∧
      Forall (λ f, finished f = true) (threads c))) ∧
  (∀ k c c', worker_step k c = Some c' →
     ∃ f b' f',
       threads c !! k = Some f ∧ RunThread_step (this c) f = Some (b', f') ∧
       this c' = b' ∧ threads c' = <[k := f']> (threads c)) ∧
  (∀ s b' o', RunWithThreads n s (b, o) = Some (b', o') →
     ∃ c name,
       exec n s (trial_start b o) = Some c ∧ at_pc c = PcRet ∧
       N.of_nat (length (threads c)) = n ∧
       Forall (λ f, loc_i f = Iterations) (threads c) ∧
       GetName b = Some name ∧
       o' = endl (print (line_suffix (startTime c) (endTime c))
                    (flush (print (line_prefix name n) o)))) ∧
  (wf_benchmark b → (n ≤ max_size)%N →
   ∃ s b' o', RunWithThreads n s (b, o) = Some (b', o')) ∧
  ((max_size < n)%N →
   (∀ s c, exec n s (trial_start b o) = Some c →
           threads c = [] ∧ at_pc c ≠ PcRet) ∧
   (∀ s, RunWithThreads n s (b, o) = None)).
Proof.
  split_and!.
  - intros s c. apply trial_threads.
  - intros k c c' H.
    apply worker_step_inv in H as (f & b' & f' & Hk & Hrun & ->).
    by exists f, b', f'.
  - intros s b' o' H.
    apply RunWithThreads_inv in H as (c & He & Hpc & <- & <-).
    pose proof (exec_trial_inv _ _ _ _ _ He) as Hinv.
    destruct (trial_inv_ret _ _ _ _ Hinv Hpc) as [Hlen Hdone].
    destruct Hinv as (_ & _ & _ & _ & _ & Hname & Hout).
    destruct Hname as [name Hname]; [by rewrite Hpc |].
    exists c, name. split_and!; try done.
    rewrite Hout. unfold stream_at, trial_prefix. by rewrite Hpc, Hname.
  - intros Hwf Hsize. by apply RunWithThreads_complete.
  - intros Hn. split.
    + intros s c. by apply refused_no_thread.
    + intros s. by apply RunWithThreads_refused.
Qed.

(** C3 as it is stated fails for [n = max_size() + 1]: the call prints and
    flushes the prefix of its line, then [reserve] refuses and the process
    ends. No thread is created under any schedule, and the call does not
    return. The same holds for the largest [size_t], which exceeds
    [max_size()] whatever the size of a [std::thread] is. *)
Lemma RunWithThreads_refused_counterexample :
  (1 ≤ max_size + 1)%N ∧
  (∃ c, exec (max_size + 1) [Main 0; Main 0; Main 0]
          (trial_start NonAtomicBaseline cout_init) = Some c ∧
        at_pc c = PcAbort) ∧
  (∀ s c, exec (max_size + 1) s (trial_start NonAtomicBaseline cout_init)
          = Some c →
          threads c = [] ∧ at_pc c ≠ PcRet) ∧
  (∀ s, RunWithThreads (max_size + 1) s (NonAtomicBaseline, cout_init) = None) ∧
  (∀ s c, exec SIZE_MAX s (trial_start NonAtomicBaseline cout_init) = Some c →
          threads c = [] ∧ at_pc c ≠ PcRet).
Proof.
  assert (max_size < max_size + 1)%N as Hn by lia.
  split_and!.
  - lia.
  - eexists. split; [vm_compute; reflexivity | reflexivity].
  - intros s c. by apply refused_no_thread.
  - intros s. by apply RunWithThreads_refused.
  - intros s c. apply refused_no_thread, max_size_lt_SIZE_MAX.
Qed.

(** C2. In the two baseline classes, [NonAtomicBaseline] and
    [AtomicBaseline<Order>] for any order, every thread is created with a
    local counter of its own set to 0; a step of a thread leaves the object
    and the frames of the other threads as they are; at any point of the
    trial a thread that has left its loop holds [Iterations] in its local
    counter; and when the call has returned, under any schedule, each of the
    [n] threads does. The call can return whenever the memory order is one
    with a name and [reserve] accepts [n]. *)
Theorem private_counter_reaches_Iterations
    (b : Benchmark) (n : N) (o : ostream) :
  baseline b →
  loc_counter frame_init = 0 ∧
  (∀ now c c', main_step n now c = Some c' →
     threads c' = threads c ∨ threads c' = threads c ++ [frame_init]) ∧
  (∀ k c c', this c = b → worker_step k c = Some c' →
     this c' = b ∧ ∀ j, j ≠ k → threads c' !! j = threads c !! j) ∧
  (∀ s c, exec n s (trial_start b o) = Some c →
     Forall (λ f, finished f = true → loc_counter f = Iterations) (threads c)) ∧
  (∀ s b' o', RunWithThreads n s (b, o) = Some (b', o') →
     ∃ c, exec n s (trial_start b o) = Some c ∧ at_pc c = PcRet ∧
          N.of_nat (length (threads c)) = n ∧
          Forall (λ f, loc_counter f = Iterations) (threads c)) ∧
  (is_Some (GetName b) → (n ≤ max_size)%N →
   ∃ s b' o', RunWithThreads n s (b, o) = Some (b', o')).
Proof.
  intros Hbase. split_and!.
  - done.
  - intros now c c' H. by apply main_step_threads in H as [_ H].
  - intros k c c' Hthis H.
    apply worker_step_inv in H as (f & b' & f' & Hk & Hrun & ->); simpl.
    split.
    + unfold RunThread_step in Hrun. rewrite Hthis in Hrun.
      destruct (finished f), b, (loc_read f); by simplify_eq.
    + intros j Hj. by rewrite list_lookup_insert_ne.
  - intros s c. by apply private_finished_counter.
  - intros s b' o' H.
    destruct (private_trial_counters n b o Hbase s b' o' H)
      as (c & He & Hpc & _ & Hlen & Hall).
    by exists c.
  - intros Hname Hsize. apply RunWithThreads_complete; [done |].
    split; [done |]. intros cv Hcv. by destruct b.
Qed.

(** The scenario of three threads on [AtomicBaseline<relaxed>]. *)
Lemma private_counter_reaches_Iterations_witness :
  baseline (AtomicBaseline memory_order_relaxed) ∧
  ∀ s b' o',
    RunWithThreads 3 s (AtomicBaseline memory_order_relaxed, cout_init)
    = Some (b', o') →
    ∃ c, exec 3 s (trial_start (AtomicBaseline memory_order_relaxed) cout_init)
         = Some c ∧ at_pc c = PcRet ∧
         N.of_nat (length (threads c)) = 3%N ∧
         Forall (λ f, loc_counter f = Iterations) (threads c).
Proof.
  split; [exact I |].
  apply (private_counter_reaches_Iterations
           (AtomicBaseline memory_order_relaxed) 3 cout_init).
  exact I.
Defined.

(** ** The shared atomic counter *)

(** C1, as the code has it. A trial of [n] threads on an
    [AtomicBenchmark<Order>] object adds exactly [n * Iterations] to the
    counter, under every schedule and for every memory order: no increment
    is lost. The value after the joins is the value before the trial plus
    [n * Iterations], in 64-bit two's complement; it is that sum itself when
    the sum fits, and it is [n * Iterations] on a newly constructed object.
    For each of the six memory orders the trial can run to its return,
    when [reserve] accepts [n]. *)
Theorem AtomicShared_trial_adds_all_increments
    (Order : memory_order) (c0 : Z) (n : N) :
  int64 c0 →
  (∀ s o b' o',
     RunWithThreads n s (AtomicBenchmark Order c0, o) = Some (b', o') →
     b' = AtomicBenchmark Order (wrap64 (c0 + Z.of_N n * Iterations)) ∧
     (c0 + Z.of_N n * Iterations ≤ INT64_MAX →
      shared_counter b' = Some (c0 + Z.of_N n * Iterations))) ∧
  (∀ s o b' o',
     RunWithThreads n s (new_AtomicBenchmark Order, o) = Some (b', o') →
     Z.of_N n * Iterations ≤ INT64_MAX →
     shared_counter b' = Some (Z.of_N n * Iterations)) ∧
  (Order ∈ MEMORY_ORDER_LIST id → (n ≤ max_size)%N →
   ∀ o, ∃ s b' o',
     RunWithThreads n s (AtomicBenchmark Order c0, o) = Some (b', o')).
Proof.
  intros H0.
  assert (∀ c s o b' o', int64 c →
            RunWithThreads n s (AtomicBenchmark Order c, o) = Some (b', o') →
            b' = AtomicBenchmark Order (wrap64 (c + Z.of_N n * Iterations)) ∧
            (c + Z.of_N n * Iterations ≤ INT64_MAX →
             shared_counter b' = Some (c + Z.of_N n * Iterations)))
    as Hadd.
  { intros c s o b' o' Hc H.
    apply atomic_trial_counter in H; [| done]. split; [done |].
    intros Hfit. rewrite H; simpl. f_equal. apply wrap64_small.
    unfold int64, INT64_MAX, Iterations in *. lia. }
  split_and!.
  - intros s o b' o'. by apply Hadd.
  - intros s o b' o' H Hfit.
    apply Hadd in H as [_ H]; [| unfold int64, INT64_MAX; lia].
    rewrite H by lia. f_equal; lia.
  - intros HO Hsize o. apply RunWithThreads_complete; [done |].
    by apply wf_benchmark_atomic.
Qed.

(** The scenario of four threads on a new [AtomicBenchmark<seq_cst>]. *)
Lemma AtomicShared_trial_adds_all_increments_witness :
  int64 0 ∧
  ∀ s o b' o',
    RunWithThreads 4 s (new_AtomicBenchmark memory_order_seq_cst, o)
    = Some (b', o') →
    Z.of_N 4 * Iterations ≤ INT64_MAX →
    shared_counter b' = Some (Z.of_N 4 * Iterations).
Proof.
  assert (int64 0) as H0 by (unfold int64, INT64_MAX; lia).
  split; [exact H0 |].
  apply (AtomicShared_trial_adds_all_increments memory_order_seq_cst 0 4 H0).
Defined.

(** C1 as it is stated fails on the second trial of a sweep: the counter
    then starts from the [Iterations] the first trial left, and after the
    two threads have joined it holds [3 * Iterations], not
    [2 * Iterations]. *)
Lemma AtomicShared_second_trial_counterexample :
  ∃ s1 s2 b1 o1 b2 o2,
    RunWithThreads 1 s1 (new_AtomicBenchmark memory_order_seq_cst, cout_init)
    = Some (b1, o1) ∧
    RunWithThreads 2 s2 (b1, o1) = Some (b2, o2) ∧
    shared_counter b2 = Some 1500000000 ∧
    shared_counter b2 ≠ Some (2 * Iterations).
Proof.
  assert (int64 0) as H0 by (unfold int64, INT64_MAX; lia).
  assert (memory_order_seq_cst ∈ MEMORY_ORDER_LIST id) as HO
    by (unfold MEMORY_ORDER_LIST, id; repeat constructor).
  destruct (RunWithThreads_complete 1
              (new_AtomicBenchmark memory_order_seq_cst) cout_init)
    as (s1 & b1 & o1 & H1).
  { by compute. }
  { by apply wf_benchmark_atomic. }
  pose proof (atomic_trial_counter _ _ _ _ _ _ _ H0 H1) as Hb1.
  assert (b1 = AtomicBenchmark memory_order_seq_cst 500000000) as ->
    by (rewrite Hb1; reflexivity).
  assert (int64 500000000) as H5 by (unfold int64, INT64_MAX; lia).
  destruct (RunWithThreads_complete 2
              (AtomicBenchmark memory_order_seq_cst 500000000) o1)
    as (s2 & b2 & o2 & H2).
  { by compute. }
  { by apply wf_benchmark_atomic. }
  pose proof (atomic_trial_counter _ _ _ _ _ _ _ H5 H2) as Hb2.
  assert (b2 = AtomicBenchmark memory_order_seq_cst 1500000000) as ->
    by (rewrite Hb2; reflexivity).
  exists s1, s2, (AtomicBenchmark memory_order_seq_cst 500000000), o1,
    (AtomicBenchmark memory_order_seq_cst 1500000000), o2.
  split_and!; done.
Qed.

(** ** The sweep *)

Lemma Run_trials m ss st :
  (m ≤ max_size)%N → Run m ss st = trials (thread_counts m) ss st.
Proof.
  intros Hm. pose proof max_size_lt_SIZE_MAX.
  unfold Run, thread_counts. apply Run_loop_trials; lia.
Qed.

(** A sweep beyond [max_size()] does not return. *)
Lemma Run_refused m ss st : (max_size < m)%N → Run m ss st = None.
Proof. intros Hm. unfold Run. apply Run_loop_refused; [done | lia]. Qed.

(** A returned sweep ran its trials in order, whatever the bound, and the
    bound was one [reserve] accepts. *)
Lemma Run_Some_trials m ss st st' :
  Run m ss st = Some st' →
  (m ≤ max_size)%N ∧ trials (thread_counts m) ss st = Some st'.
Proof.
  intros H. destruct (N.le_gt_cases m max_size) as [Hm|Hm].
  - split; [done |]. by rewrite <- Run_trials.
  - by rewrite Run_refused in H.
Qed.

Lemma thread_counts_length m : length (thread_counts m) = N.to_nat m.
Proof. unfold thread_counts, counts_from. by rewrite length_map, length_seq. Qed.

(** C4, as the code has it. For every [maxNumThreads] up to [max_size()],
    the largest thread count [reserve] accepts, [Run(maxNumThreads)] is the
    trials with 1, 2, ..., [maxNumThreads] threads, once each and in
    increasing order, every trial started on the object and the stream the
    one before returned; a trial returns only when all its threads have
    been joined and its line is written. A returned sweep has run exactly
    [maxNumThreads] trials; [Run(1)] is the single trial with one thread;
    and every such sweep of a well-formed object can be run to its end. *)
Theorem Run_performs_trials_in_order (maxNumThreads : N) :
  (maxNumThreads ≤ max_size)%N →
  (∀ ss st,
     Run maxNumThreads ss st = trials (thread_counts maxNumThreads) ss st) ∧
  length (thread_counts maxNumThreads) = N.to_nat maxNumThreads ∧
  (∀ i, (i < N.to_nat maxNumThreads)%nat →
        thread_counts maxNumThreads !! i = Some (N.of_nat i + 1)%N) ∧
  (∀ ss st st', Run maxNumThreads ss st = Some st' →
                length ss = N.to_nat maxNumThreads) ∧
  (∀ k s b o b' o', RunWithThreads k s (b, o) = Some (b', o') →
     ∃ c, exec k s (trial_start b o) = Some c ∧ at_pc c = PcRet ∧
          N.of_nat (length (threads c)) = k ∧
          Forall (λ f, finished f = true) (threads c) ∧
          this c = b' ∧ cout c = o' ∧ buffer o' = ""%string) ∧
  (∀ s st, Run 1 [s] st = RunWithThreads 1 s st) ∧
  (∀ b o, wf_benchmark b → ∃ ss st', Run maxNumThreads ss (b, o) = Some st').
Proof.
  intros Hm. split_and!.
  - intros ss st. by apply Run_trials.
  - apply thread_counts_length.
  - intros i Hi. unfold thread_counts. rewrite counts_from_lookup by done.
    f_equal. lia.
  - intros ss st st' H. rewrite Run_trials in H by done.
    apply trials_length in H. by rewrite H, thread_counts_length.
  - intros k s b o b' o' H.
    pose proof (RunWithThreads_output _ _ _ _ _ _ H)
      as (name & t0 & t1 & _ & _ & Ho').
    apply RunWithThreads_inv in H as (c & He & Hpc & <- & <-).
    destruct (trial_threads _ _ _ _ _ He) as [_ Hall].
    destruct Hall as [Hlen Hfin]; [by auto |].
    exists c. split_and!; try done. by rewrite Ho'.
  - intros s st. unfold Run; simpl.
    destruct (RunWithThreads 1 s st) as [st'|]; done.
  - intros b o Hwf.
    destruct (trials_complete (thread_counts maxNumThreads) b o)
      as (ss & st' & H); [by apply thread_counts_le | done |].
    exists ss, st'. by rewrite Run_trials.
Qed.

(** The sweep of [main]: ten trials. *)
Lemma Run_performs_trials_in_order_witness :
  (10 ≤ max_size)%N ∧
  ∀ ss st, Run 10 ss st = trials (thread_counts 10) ss st.
Proof.
  assert (10 ≤ max_size)%N as H by (by compute).
  split; [exact H |].
  apply (Run_performs_trials_in_order 10 H).
Defined.

(** C4 as it is stated fails for [maxNumThreads = max_size() + 1]: the
    last trial of the sweep, with [max_size() + 1] threads, cannot be
    completed under any schedule, since [reserve] refuses and the process
    ends (after the prefix of the line is out, before any thread is
    created); so the sweep does not return either. Nor does the sweep up
    to the largest [size_t]: the wrap of its loop variable is never
    reached. *)
Lemma Run_beyond_max_size_counterexample :
  (1 ≤ max_size + 1)%N ∧
  thread_counts (max_size + 1) !! N.to_nat max_size = Some (max_size + 1)%N ∧
  (∃ c, exec (max_size + 1) [Main 0; Main 0; Main 0]
          (trial_start NonAtomicBaseline cout_init) = Some c ∧
        at_pc c = PcAbort ∧ threads c = []) ∧
  (∀ s st, RunWithThreads (max_size + 1) s st = None) ∧
  (∀ ss st, Run (max_size + 1) ss st = None) ∧
  (∀ ss st, Run SIZE_MAX ss st = None).
Proof.
  assert (max_size < max_size + 1)%N as Hn by lia.
  split_and!.
  - lia.
  - unfold thread_counts. rewrite counts_from_lookup by lia.
    by rewrite N2Nat.id, N.add_comm.
  - eexists. split; [vm_compute; reflexivity | by split].
  - intros s st. by apply RunWithThreads_refused.
  - intros ss st. by apply Run_refused.
  - intros ss st. apply Run_refused, max_size_lt_SIZE_MAX.
Qed.

(** ** The shared counters over a sweep *)

(** A sweep whose total fits the counter has fewer than 200000 trials, a
    thread count [reserve] accepts. *)
Lemma fit_accepted m :
  Iterations * Z.of_N m * (Z.of_N m + 1) / 2 ≤ INT64_MAX → (m ≤ max_size)%N.
Proof.
  intros Hfit. assert (200000 ≤ max_size)%N as Hmax by (by compute).
  assert (Z.of_N m ≤ 200000); [| lia].
  destruct (Z.le_gt_cases (Z.of_N m) 200000) as [|Hgt]; [done |].
  assert (2 * (INT64_MAX + 1) ≤ Iterations * Z.of_N m * (Z.of_N m + 1)) as Hbig
    by (unfold INT64_MAX, Iterations; nia).
  apply Z.div_le_lower_bound in Hbig; lia.
Qed.

(** C5, as the code has it. Both shared classes construct their counter as
    0. Nothing resets it: the calling thread never writes the object, and
    each trial of a sweep starts on the object the trial before returned, so
    the increments of all trials add up in the one counter.
    - Atomic counter: after [Run(m)] it holds [Iterations * m * (m + 1) / 2]
      in 64-bit two's complement, under every schedule; that is the number
      itself as long as it fits in an [int64_t].
    - Non-atomic counter, as long as that number fits: after [Run(m)] it
      holds at most that number, and exactly that number when the threads
      of each trial run one after the other, so that every increment
      arrives.
    For the sweep of [main], [m = 10], the number is 27,500,000,000. *)
Theorem shared_counter_accumulates_over_sweep :
  shared_counter new_NonAtomicBenchmark = Some 0 ∧
  (∀ Order, shared_counter (new_AtomicBenchmark Order) = Some 0) ∧
  (∀ n now c c', main_step n now c = Some c' → this c' = this c) ∧
  (∀ m threads s ss st, (threads ≤ m)%N →
     Run_loop m threads (s :: ss) st
     = st' ← RunWithThreads threads s st; Run_loop m (size_succ threads) ss st') ∧
  (∀ Order m ss o b' o',
     Run m ss (new_AtomicBenchmark Order, o) = Some (b', o') →
     shared_counter b'
     = Some (wrap64 (Iterations * Z.of_N m * (Z.of_N m + 1) / 2)) ∧
     (Iterations * Z.of_N m * (Z.of_N m + 1) / 2 ≤ INT64_MAX →
      shared_counter b' = Some (Iterations * Z.of_N m * (Z.of_N m + 1) / 2))) ∧
  (∀ Order m o, Order ∈ MEMORY_ORDER_LIST id → (m ≤ max_size)%N →
     ∃ ss b' o', Run m ss (new_AtomicBenchmark Order, o) = Some (b', o')) ∧
  (∀ m ss o b' o',
     Iterations * Z.of_N m * (Z.of_N m + 1) / 2 ≤ INT64_MAX →
     Run m ss (new_NonAtomicBenchmark, o) = Some (b', o') →
     ∃ cv, shared_counter b' = Some cv ∧
           0 ≤ cv ≤ Iterations * Z.of_N m * (Z.of_N m + 1) / 2) ∧
  (∀ m o,
     Iterations * Z.of_N m * (Z.of_N m + 1) / 2 ≤ INT64_MAX →
     ∃ ss b' o',
       Run m ss (new_NonAtomicBenchmark, o) = Some (b', o') ∧
       shared_counter b' = Some (Iterations * Z.of_N m * (Z.of_N m + 1) / 2)) ∧
  Iterations * Z.of_N 10 * (Z.of_N 10 + 1) / 2 = 27500000000 ∧
  27500000000 ≤ INT64_MAX.
Proof.
  assert (int64 0) as H0 by (unfold int64, INT64_MAX; lia).
  assert (∀ m, 0 ≤ Iterations * Z.of_N m * (Z.of_N m + 1) / 2) as Hpos.
  { intros m. apply Z.div_pos; [| done]. unfold Iterations. nia. }
  split_and!; try done.
  - intros n now c c' H. by apply main_step_threads in H as [H _].
  - intros m t s ss st Ht. simpl.
    by destruct (N.leb_spec t m); [| lia].
  - intros Order m ss o b' o' H. apply Run_Some_trials in H as [_ H].
    apply atomic_trials_counter in H; [| done].
    rewrite Z.add_0_l, <- sweep_total in H. subst b'. split; [done |].
    intros Hfit. simpl. f_equal. apply wrap64_small.
    specialize (Hpos m). unfold int64. lia.
  - intros Order m o HO Hm.
    destruct (trials_complete (thread_counts m) (new_AtomicBenchmark Order) o)
      as (ss & [b' o'] & H);
      [by apply thread_counts_le | by apply wf_benchmark_atomic |].
    exists ss, b', o'. by rewrite Run_trials.
  - intros m ss o b' o' Hfit H. apply Run_Some_trials in H as [_ H].
    rewrite sweep_total in *.
    apply racy_trials_counter in H as (cv & -> & Hcv); [| done | lia].
    exists cv. split; [done | lia].
  - intros m o Hfit. pose proof (fit_accepted m Hfit) as Hm.
    destruct (serial_trials_counter (thread_counts m) 0 o)
      as (ss & o' & H); [by apply thread_counts_le | done |].
    rewrite Z.add_0_l, <- sweep_total in H.
    eexists ss, _, o'. rewrite Run_trials by done. split; [exact H |].
    simpl. f_equal. apply wrap64_small.
    specialize (Hpos m). unfold int64. lia.
Qed.

(** C5 as it is stated fails when the total does not fit the counter. For
    [m = 200000] the atomic counter, which wraps, holds the total minus
    [2 ^ 64] after the sweep. *)
Lemma shared_counter_wraps_counterexample :
  ∃ ss b' o',
    Run 200000 ss (new_AtomicBenchmark memory_order_seq_cst, cout_init)
    = Some (b', o') ∧
    shared_counter b' = Some (Iterations * 200000 * (200000 + 1) / 2 - 2 ^ 64) ∧
    shared_counter b' ≠ Some (Iterations * 200000 * (200000 + 1) / 2).
Proof.
  assert (int64 0) as H0 by (unfold int64, INT64_MAX; lia).
  assert (200000 ≤ max_size)%N as Hm by (by compute).
  destruct (trials_complete (thread_counts 200000)
              (new_AtomicBenchmark memory_order_seq_cst) cout_init)
    as (ss & [b' o'] & H).
  { by apply thread_counts_le. }
  { apply wf_benchmark_atomic; [| done].
    unfold MEMORY_ORDER_LIST, id. repeat constructor. }
  exists ss, b', o'. rewrite Run_trials by done. split; [exact H |].
  apply atomic_trials_counter in H; [| done].
  rewrite Z.add_0_l, <- sweep_total in H. subst b'.
  change (Z.of_N 200000) with 200000. simpl shared_counter.
  assert (wrap64 (Iterations * 200000 * (200000 + 1) / 2)
          = Iterations * 200000 * (200000 + 1) / 2 - 2 ^ 64) as ->
    by (vm_compute; reflexivity).
  split; [done |]. vm_compute. discriminate.
Qed.

(** * Further properties *)

(** ** Termination and absence of deadlock *)

Lemma exec_app n s1 s2 c :
  exec n (s1 ++ s2) c = exec n s1 c ≫= exec n s2.
Proof.
  revert c. induction s1 as [|a s1 IH]; intros c; simpl; [done |].
  destruct (step n a c) as [c'|]; simpl; [apply IH | done].
Qed.

Section Liveness.
Variable numThreads : N.
Variable this0 : Benchmark.
Variable cout0 : ostream.

Local Abbreviation live_inv := (live_inv numThreads this0 cout0).
Local Abbreviation steps_rem := (steps_rem numThreads).

Lemma live_inv_start : live_inv (trial_start this0 cout0).
Proof. split; [apply trial_inv_start | done]. Qed.

Lemma step_live_inv a c c' :
  live_inv c → step numThreads a c = Some c' → live_inv c'.
Proof.
  intros [Hinv Hrd] Hs. split; [by eapply step_trial_inv |].
  destruct a as [now|k]; simpl in Hs.
  - pose proof (main_step_threads _ _ _ _ Hs) as [Hthis [Hth | Hth]];
      rewrite Hthis, Hth; [done |].
    intros j g v Hg Hv. apply lookup_app_Some in Hg as [Hg | [_ Hg]].
    + by apply (Hrd j g v).
    + by apply list_lookup_singleton_Some in Hg as [_ <-].
  - apply worker_step_inv in Hs as (f & b' & f' & Hk & Hrun & ->); simpl.
    pose proof (RunThread_step_inv _ _ _ _ Hrun) as (Hlt & Hcl & _).
    assert (k < length (threads c))%nat as Hklen by (by eapply lookup_lt_Some).
    assert (nonatomic (this c) → nonatomic b') as Hna
      by (destruct (this c), b'; done).
    intros j g v Hg Hv. destruct (decide (j = k)) as [->|Hne].
    + rewrite list_lookup_insert_eq in Hg by done. simplify_eq.
      assert (is_Some (loc_read f) → nonatomic (this c)) as Hpend.
      { intros [w Hw]. by destruct (Hrd k f w Hk Hw). }
      unfold RunThread_step in Hrun.
      destruct (finished f); [done |].
      destruct (this c) eqn:Hthis, (loc_read f) as [w|] eqn:Hw;
        simplify_eq; simpl in *; simplify_eq; try done;
        by destruct Hpend.
    + rewrite list_lookup_insert_ne in Hg by done.
      destruct (Hrd j g v Hg Hv) as [? ?]. auto.
Qed.

Lemma exec_live_inv s c :
  exec numThreads s (trial_start this0 cout0) = Some c → live_inv c.
Proof.
  apply (exec_invariant numThreads live_inv); [| apply live_inv_start].
  intros a c1 c2. apply step_live_inv.
Qed.

Lemma steps_rem_nonneg c : live_inv c → 0 ≤ steps_rem c.
Proof.
  intros ((_ & Hi & Hlen & Hle & _) & Hread).
  assert (0 ≤ sum_frames frame_rem (threads c)) as Hsum.
  { assert (∀ j f, threads c !! j = Some f → 0 ≤ frame_rem f) as Hall.
    { intros j f Hf. pose proof (Forall_lookup_1 _ _ _ _ Hi Hf) as Hb.
      simpl in Hb. unfold frame_rem.
      destruct (loc_read f) as [v|] eqn:Hv; [| lia].
      destruct (Hread j f v Hf Hv). lia. }
    clear -Hall. induction (threads c) as [|f l IH]; simpl; [done |].
    pose proof (Hall 0%nat f eq_refl).
    assert (0 ≤ sum_frames frame_rem l); [| lia].
    apply IH. intros j g Hg. by apply (Hall (S j)). }
  assert (0 ≤ main_rem numThreads (at_pc c))
    by (destruct (at_pc c); simpl; lia).
  assert (Z.of_nat (length (threads c)) ≤ Z.of_N numThreads) by lia.
  unfold steps_rem, Iterations in *. nia.
Qed.

Lemma step_steps_rem a c c' :
  live_inv c → step numThreads a c = Some c' → steps_rem c' < steps_rem c.
Proof.
  intros [Hinv _] Hs. destruct a as [now|k]; simpl in Hs.
  - by eapply main_step_rem.
  - by eapply worker_step_rem.
Qed.

(** Every step uses up at least one of the steps still to take. *)
Lemma exec_steps_rem s : ∀ c c',
  live_inv c → exec numThreads s c = Some c' →
  Z.of_nat (length s) + steps_rem c' ≤ steps_rem c.
Proof.
  induction s as [|a s IH]; intros c c' Hinv He; simpl in He.
  - simplify_eq. simpl. lia.
  - destruct (step numThreads a c) as [c1|] eqn:Hs; simpl in He; [| done].
    pose proof (step_steps_rem _ _ _ Hinv Hs).
    pose proof (IH c1 c' (step_live_inv _ _ _ Hinv Hs) He).
    simpl length. lia.
Qed.

(** Unless the call has returned or the process has ended, someone can
    take a step: the calling thread, or, when it waits in [join], the thread
    it waits for. *)
Lemma live_progress c :
  is_Some (GetName this0) → live_inv c →
  at_pc c ≠ PcRet → at_pc c ≠ PcAbort →
  ∃ a c', step numThreads a c = Some c'.
Proof.
  intros [name Hname] [(Hcl & _) _] Hpc Hpc'.
  destruct (at_pc c) eqn:Hp; try done.
  - exists (Main 0). simpl. unfold main_step. rewrite Hp.
    rewrite <- (GetName_same_class _ _ Hcl), Hname. by eexists.
  - exists (Main 0). simpl. unfold main_step. rewrite Hp. by eexists.
  - exists (Main 0). simpl. unfold main_step. rewrite Hp.
    destruct (numThreads <=? max_size)%N; by eexists.
  - exists (Main 0). simpl. unfold main_step. rewrite Hp. by eexists.
  - exists (Main 0). simpl. unfold main_step. rewrite Hp.
    destruct (i <? numThreads)%N; by eexists.
  - destruct (threads c !! k) as [f|] eqn:Hk.
    + destruct (finished f) eqn:Hf.
      * exists (Main 0). simpl. unfold main_step. rewrite Hp, Hk, Hf.
        by eexists.
      * destruct (RunThread_step_progress (this c) f Hf) as [[b' f'] Hrun].
        exists (Worker k). simpl. unfold worker_step.
        rewrite Hk; simpl. rewrite Hrun; simpl. by eexists.
    + exists (Main 0). simpl. unfold main_step. rewrite Hp, Hk. by eexists.
  - exists (Main 0). simpl. unfold main_step. rewrite Hp. by eexists.
  - exists (Main 0). simpl. unfold main_step. rewrite Hp. by eexists.
Qed.

(** From every reachable configuration the call can be run to its end:
    its return, or the end of the process. *)
Lemma live_completes c :
  is_Some (GetName this0) → live_inv c →
  ∃ s c', exec numThreads s c = Some c' ∧
          (at_pc c' = PcRet ∨ at_pc c' = PcAbort).
Proof.
  intros Hname.
  assert (∀ m c, steps_rem c ≤ Z.of_nat m → live_inv c →
            ∃ s c', exec numThreads s c = Some c' ∧
                    (at_pc c' = PcRet ∨ at_pc c' = PcAbort))
    as Hind.
  { clear c. intros m. induction m as [|m IH]; intros c Hm Hinv;
      (destruct (decide (at_pc c = PcRet)) as [Hpc|Hpc];
       [exists [], c; by auto |]);
      (destruct (decide (at_pc c = PcAbort)) as [Hpc'|Hpc'];
       [exists [], c; by auto |]);
      destruct (live_progress c Hname Hinv Hpc Hpc') as (a & c1 & Hs);
      pose proof (step_steps_rem _ _ _ Hinv Hs) as Hlt;
      pose proof (step_live_inv _ _ _ Hinv Hs) as Hinv1.
    - pose proof (steps_rem_nonneg c1 Hinv1). lia.
    - destruct (IH c1 ltac:(lia) Hinv1) as (s & c' & He & Hret).
      exists (a :: s), c'. simpl. by rewrite Hs. }
  intros Hinv. apply (Hind (Z.to_nat (steps_rem c))); [| done].
  pose proof (steps_rem_nonneg c Hinv). lia.
Qed.

End Liveness.

(** X1. A trial terminates: whatever the schedule, no more than
    [2 * n + 8 + 2 * n * Iterations] steps can be taken from the entry of
    [RunWithThreads(n)], on any object. *)
Theorem trial_terminates (n : N) (b : Benchmark) (o : ostream)
    (s : schedule) (c : config) :
  exec n s (trial_start b o) = Some c →
  Z.of_nat (length s) ≤ trial_steps_bound n.
Proof.
  intros He.
  pose proof (exec_steps_rem n b o s _ _ (live_inv_start n b o) He) as Hle.
  pose proof (steps_rem_nonneg n b o c (exec_live_inv n b o s c He)) as H0.
  unfold trial_steps_bound.
  replace (2 * Z.of_N n + 8 + Z.of_N n * (2 * Iterations))
    with (steps_rem n (trial_start b o)); [lia |].
  unfold steps_rem; simpl. lia.
Qed.

(** Five steps of the calling thread and one increment of the thread. *)
Lemma trial_terminates_witness :
  ∃ c, exec 1 [Main 0; Main 0; Main 0; Main 0; Main 0; Worker 0; Worker 0]
         (trial_start NonAtomicBaseline cout_init) = Some c ∧
       Z.of_nat (length [Main 0; Main 0; Main 0; Main 0; Main 0;
                         Worker 0; Worker 0])
       ≤ trial_steps_bound 1.
Proof.
  eexists. split; [reflexivity |].
  eapply (trial_terminates 1 NonAtomicBaseline cout_init). reflexivity.
Defined.

(** X2. A trial never deadlocks. In every configuration reachable from the
    entry of [RunWithThreads(n)] on an object with a name, unless the call
    has returned or the process has ended in [reserve], some step can be
    taken (by the calling thread or, when it is blocked in [join], by the
    thread it waits for). The process ends only when [n] exceeds
    [max_size()]. The schedule that led to the configuration can be
    continued to the end of the call: to its return when [reserve] accepts
    [n], to the end of the process otherwise. *)
Theorem trial_never_deadlocks (n : N) (b : Benchmark) (o : ostream)
    (s : schedule) (c : config) :
  is_Some (GetName b) →
  exec n s (trial_start b o) = Some c →
  (at_pc c ≠ PcRet → at_pc c ≠ PcAbort → ∃ a c', step n a c = Some c') ∧
  (at_pc c = PcAbort → (max_size < n)%N) ∧
  ∃ s' c', exec n (s ++ s') (trial_start b o) = Some c' ∧
           at_pc c' = if (n <=? max_size)%N then PcRet else PcAbort.
Proof.
  intros Hname He. pose proof (exec_live_inv n b o s c He) as Hinv.
  split_and!.
  - by apply (live_progress n b o).
  - intros Hpc. apply exec_reserve_inv in He. unfold reserve_inv in He.
    by rewrite Hpc in He.
  - destruct (live_completes n b o c Hname Hinv) as (s' & c' & He' & Hend).
    assert (exec n (s ++ s') (trial_start b o) = Some c') as Hall
      by (rewrite exec_app, He; exact He').
    exists s', c'. split; [done |].
    apply exec_reserve_inv in Hall. unfold reserve_inv in Hall.
    destruct (N.leb_spec n max_size), Hend as [Hpc | Hpc];
      rewrite Hpc in *; done || lia.
Qed.

(** One thread created, in its loop, and the calling thread waiting. *)
Lemma trial_never_deadlocks_witness :
  ∃ c, exec 1 [Main 0; Main 0; Main 0; Main 0; Main 0; Main 0; Worker 0]
         (trial_start NonAtomicBaseline cout_init) = Some c ∧
       ∃ s' c',
         exec 1 ([Main 0; Main 0; Main 0; Main 0; Main 0; Main 0; Worker 0]
                 ++ s')
           (trial_start NonAtomicBaseline cout_init) = Some c' ∧
         at_pc c' = PcRet.
Proof.
  eexists. split; [reflexivity |].
  eapply (trial_never_deadlocks 1 NonAtomicBaseline cout_init).
  - by eexists.
  - reflexivity.
Defined.

(** ** A thread count [reserve] refuses *)

(** X14. A trial with more threads than [max_size()] ends the process in
    [reserve]. Three steps of the calling thread lead there; the prefix of
    the line is then on the terminal. No schedule has more than these three
    steps: no thread is ever created, the object is not touched, neither
    time point is assigned, and nothing but the prefix is printed. A sweep
    that includes such a trial does not return. *)
Theorem refused_trial_ends_after_prefix
    (n : N) (b : Benchmark) (o : ostream) (name : string) :
  (max_size < n)%N → GetName b = Some name →
  (∀ t1 t2 t3,
     exec n [Main t1; Main t2; Main t3] (trial_start b o)
     = Some {| this := b; cout := prefix_flushed name n o; threads := [];
               startTime := startTime (trial_start b o);
               endTime := endTime (trial_start b o); at_pc := PcAbort |}) ∧
  (∀ s c, exec n s (trial_start b o) = Some c →
     (length s ≤ 3)%nat ∧ Forall is_main s ∧
     this c = b ∧ threads c = [] ∧
     startTime c = startTime (trial_start b o) ∧
     endTime c = endTime (trial_start b o) ∧
     (cout c = o ∨ cout c = print (line_prefix name n) o ∨
      cout c = prefix_flushed name n o)) ∧
  (∀ m ss, (n ≤ m)%N → Run m ss (b, o) = None).
Proof.
  intros Hn Hname.
  assert ((n <=? max_size)%N = false) as Hleb by (by apply N.leb_gt).
  assert (∀ t, main_step n t (trial_start b o)
               = Some (set_cout (trial_start b o)
                         (print (line_prefix name n) o) PcFlush)) as H1.
  { intros t. unfold main_step. cbn [at_pc trial_start this cout].
    by rewrite Hname. }
  assert (∀ t c, at_pc c = PcReserve →
                 main_step n t c = Some (set_pc c PcAbort)) as H3.
  { intros t c Hpc. unfold main_step. by rewrite Hpc, Hleb. }
  split_and!.
  - intros t1 t2 t3. cbn [exec step]. rewrite H1. cbn [mbind option_bind].
    cbn [main_step set_cout at_pc]. cbn [mbind option_bind].
    by rewrite H3.
  - intros s c He.
    destruct s as [|[t1|k1] s]; cbn [exec step] in He;
      [simplify_eq; split_and!; first [by auto | simpl; lia | by repeat constructor] | | done].
    rewrite H1 in He. cbn [mbind option_bind] in He.
    destruct s as [|[t2|k2] s]; cbn [exec step] in He;
      [simplify_eq; split_and!; first [by auto | simpl; lia | by repeat constructor] | | done].
    cbn [main_step set_cout at_pc] in He. cbn [mbind option_bind] in He.
    destruct s as [|[t3|k3] s]; cbn [exec step] in He;
      [simplify_eq; split_and!; first [by auto | simpl; lia | by repeat constructor] | | done].
    rewrite H3 in He by done. cbn [mbind option_bind] in He.
    destruct s as [|[t4|k4] s]; cbn [exec step] in He;
      [simplify_eq; split_and!; first [by auto | simpl; lia | by repeat constructor] | done | done].
  - intros m ss Hm. apply Run_refused. lia.
Qed.

(** The largest [size_t]. *)
Lemma refused_trial_ends_after_prefix_witness :
  (max_size < SIZE_MAX)%N ∧
  GetName NonAtomicBaseline = Some "Non-atomic Baseline"%string ∧
  ∀ m ss, (SIZE_MAX ≤ m)%N → Run m ss (NonAtomicBaseline, cout_init) = None.
Proof.
  assert (max_size < SIZE_MAX)%N as Hn by reflexivity.
  split; [exact Hn |]. split; [reflexivity |].
  apply (refused_trial_ends_after_prefix SIZE_MAX NonAtomicBaseline cout_init
           "Non-atomic Baseline" Hn eq_refl).
Defined.

(** ** The shared counters during a trial *)

(** X3. At every point of a trial on an [AtomicBenchmark<Order>] object,
    under any schedule, the counter is its value at the start plus the
    number of iterations the threads have completed so far (in 64-bit two's
    complement): every [fetch_add] that has been executed is in the counter,
    and nothing else is. *)
Theorem atomic_counter_counts_completed_iterations
    (Order : memory_order) (c0 : Z) (n : N) (o : ostream)
    (s : schedule) (c : config) :
  int64 c0 →
  exec n s (trial_start (AtomicBenchmark Order c0) o) = Some c →
  this c = AtomicBenchmark Order (wrap64 (c0 + work (threads c))) ∧
  0 ≤ work (threads c) ≤ Z.of_N n * Iterations.
Proof.
  intros H0 He. split.
  - eapply (exec_invariant n (atomic_inv Order c0)); [| | exact He].
    + intros a c1 c2. apply step_atomic_inv.
    + by apply atomic_inv_start.
  - pose proof (exec_trial_inv _ _ _ _ _ He) as (_ & Hi & Hlen & Hle & _).
    pose proof (work_bounds _ Hi).
    assert (Z.of_nat (length (threads c)) ≤ Z.of_N n) by lia.
    unfold Iterations in *. nia.
Qed.

(** Two threads, one increment each. *)
Lemma atomic_counter_counts_completed_iterations_witness :
  int64 0 ∧
  ∃ c, exec 2 [Main 0; Main 0; Main 0; Main 0; Main 0; Main 0;
               Worker 0; Worker 1]
         (trial_start (AtomicBenchmark memory_order_relaxed 0) cout_init)
       = Some c ∧
       this c = AtomicBenchmark memory_order_relaxed
                  (wrap64 (0 + work (threads c))).
Proof.
  assert (int64 0) as H0 by (unfold int64, INT64_MAX; lia).
  split; [exact H0 |]. eexists. split; [vm_compute; reflexivity |].
  apply (atomic_counter_counts_completed_iterations
           memory_order_relaxed 0 2 cout_init
           [Main 0; Main 0; Main 0; Main 0; Main 0; Main 0;
            Worker 0; Worker 1]);
    [exact H0 | vm_compute; reflexivity].
Defined.

(** X4. At every point of a trial on a [NonAtomicBenchmark] object, under
    any schedule, the counter lies between its value at the start and that
    value plus the number of iterations completed so far, provided the
    counter cannot overflow during the trial: increments can be lost, but
    the counter never goes below its start and never counts an increment
    that was not made. *)
Theorem nonatomic_counter_between_start_and_completed
    (c0 : Z) (n : N) (o : ostream) (s : schedule) (c : config) :
  int64 c0 → c0 + Z.of_N n * Iterations ≤ INT64_MAX →
  exec n s (trial_start (NonAtomicBenchmark c0) o) = Some c →
  ∃ cv, this c = NonAtomicBenchmark cv ∧ c0 ≤ cv ≤ c0 + work (threads c).
Proof.
  intros H0 Hfit He.
  assert (racy_inv n c0 o c) as (_ & Hcv & _); [| done].
  eapply (exec_invariant n (racy_inv n c0 o)); [| | exact He].
  - intros a c1 c2. by apply step_racy_inv.
  - split; [apply trial_inv_start |]. simpl. split; [| done].
    exists c0. split; [done | lia].
Qed.

(** Both threads read 0, both write 1: two iterations, counter 1. *)
Lemma nonatomic_counter_between_start_and_completed_witness :
  int64 0 ∧ 0 + Z.of_N 2 * Iterations ≤ INT64_MAX ∧
  ∃ c, exec 2 [Main 0; Main 0; Main 0; Main 0; Main 0; Main 0;
               Worker 0; Worker 1; Worker 0; Worker 1]
         (trial_start (NonAtomicBenchmark 0) cout_init) = Some c ∧
       ∃ cv, this c = NonAtomicBenchmark cv ∧ 0 ≤ cv ≤ 0 + work (threads c).
Proof.
  assert (int64 0) as H0 by (unfold int64, INT64_MAX; lia).
  assert (0 + Z.of_N 2 * Iterations ≤ INT64_MAX) as Hfit
    by (unfold INT64_MAX, Iterations; lia).
  split; [exact H0 |]. split; [exact Hfit |].
  eexists. split; [vm_compute; reflexivity |].
  apply (nonatomic_counter_between_start_and_completed 0 2 cout_init
           [Main 0; Main 0; Main 0; Main 0; Main 0; Main 0;
            Worker 0; Worker 1; Worker 0; Worker 1]);
    [exact H0 | exact Hfit | vm_compute; reflexivity].
Defined.

Section Solo.
Variable c0 : Z.
Variable cout0 : ostream.

Local Abbreviation solo_inv := (solo_inv c0 cout0).

Lemma step_solo_inv a c c' :
  solo_inv c → step 1 a c = Some c' → solo_inv c'.
Proof.
  intros (Hinv & cv & Hthis & Hcv & Hrd) Hs.
  pose proof (step_trial_inv _ _ _ _ _ _ Hinv Hs) as Hinv'.
  split; [done |].
  destruct a as [now|k]; simpl in Hs.
  - pose proof (main_step_threads _ _ _ _ Hs) as [Hthis' [Hth | Hth]];
      rewrite Hthis', Hth; exists cv.
    + done.
    + rewrite work_app; simpl. rewrite Z.add_0_r. split_and!; try done.
      intros j g v Hg Hv. apply lookup_app_Some in Hg as [Hg | [_ Hg]].
      * by apply (Hrd j g v).
      * by apply list_lookup_singleton_Some in Hg as [_ <-].
  - destruct Hinv as (_ & _ & Hlen & Hle & _).
    apply worker_step_inv in Hs as (f & b' & f' & Hk & Hrun & ->); simpl.
    assert (k < length (threads c))%nat as Hklen by (by eapply lookup_lt_Some).
    (* there is no other thread *)
    assert (k = 0%nat) as -> by lia.
    assert (∀ j g, <[0%nat := f']> (threads c) !! j = Some g → g = f') as Hone.
    { intros j g Hg. destruct j as [|j].
      - rewrite list_lookup_insert_eq in Hg by done. by simplify_eq.
      - apply lookup_lt_Some in Hg. rewrite length_insert in Hg. lia. }
    rewrite (work_insert _ _ _ _ Hk).
    unfold RunThread_step in Hrun. rewrite Hthis in Hrun.
    destruct (finished f); [done |].
    destruct (loc_read f) as [w|] eqn:Hw; simplify_eq; simpl.
    + eexists. split; [done |]. split.
      * rewrite (Hrd _ _ _ Hk Hw), wrap64_add_l. f_equal. lia.
      * intros j g v Hg Hv. by rewrite (Hone j g Hg) in Hv.
    + eexists. split; [done |]. split.
      * f_equal. lia.
      * intros j g v Hg Hv. rewrite (Hone j g Hg) in Hv. by simplify_eq/=.
Qed.

End Solo.

(** After a trial of one thread, under any schedule. *)
Lemma solo_trial_counter c0 s o b' o' :
  int64 c0 →
  RunWithThreads 1 s (NonAtomicBenchmark c0, o) = Some (b', o') →
  b' = NonAtomicBenchmark (wrap64 (c0 + Iterations)).
Proof.
  intros H0 H.
  apply RunWithThreads_inv in H as (c & He & Hpc & <- & _).
  assert (solo_inv c0 o c) as (Hinv & cv & Hthis & Hcv & _).
  { eapply (exec_invariant 1 (solo_inv c0 o)); [| | exact He].
    - intros a c1 c2. apply step_solo_inv.
    - split; [apply trial_inv_start |]. exists c0. simpl.
      rewrite Z.add_0_r, wrap64_small by done. done. }
  destruct (trial_inv_ret _ _ _ _ Hinv Hpc) as [Hlen Hdone].
  rewrite (work_all_done _ Hdone) in Hcv.
  rewrite Hthis, Hcv. do 2 f_equal. lia.
Qed.

(** X5. A trial of one thread on a [NonAtomicBenchmark] object loses
    nothing: under every schedule the counter after the call is its value
    before plus [Iterations] (in 64-bit two's complement, the sum itself
    when it fits). The race needs a second thread. *)
Theorem single_thread_trial_is_exact (c0 : Z) :
  int64 c0 →
  (∀ s o b' o',
     RunWithThreads 1 s (NonAtomicBenchmark c0, o) = Some (b', o') →
     b' = NonAtomicBenchmark (wrap64 (c0 + Iterations)) ∧
     (c0 + Iterations ≤ INT64_MAX →
      b' = NonAtomicBenchmark (c0 + Iterations))) ∧
  (∀ o, ∃ s b' o',
     RunWithThreads 1 s (NonAtomicBenchmark c0, o) = Some (b', o')).
Proof.
  intros H0. split.
  - intros s o b' o' H. apply solo_trial_counter in H; [| done].
    split; [done |]. intros Hfit. rewrite H. f_equal.
    apply wrap64_small. unfold int64, INT64_MAX, Iterations in *. lia.
  - intros o. apply RunWithThreads_complete; [by compute |].
    split; [by eexists | intros cv ?; by simplify_eq/=].
Qed.

(** The first trial of a sweep on a new object. *)
Lemma single_thread_trial_is_exact_witness :
  int64 0 ∧
  ∀ s o b' o',
    RunWithThreads 1 s (NonAtomicBenchmark 0, o) = Some (b', o') →
    b' = NonAtomicBenchmark (wrap64 (0 + Iterations)) ∧
    (0 + Iterations ≤ INT64_MAX → b' = NonAtomicBenchmark (0 + Iterations)).
Proof.
  assert (int64 0) as H0 by (unfold int64, INT64_MAX; lia).
  split; [exact H0 |].
  apply (single_thread_trial_is_exact 0 H0).
Defined.

(** ** A schedule that loses increments *)

Lemma read_step k c f cv :
  this c = NonAtomicBenchmark cv → threads c !! k = Some f →
  loc_read f = None → loc_i f < Iterations →
  worker_step k c
  = Some (with_thread c (NonAtomicBenchmark cv) k
            {| loc_i := loc_i f; loc_counter := loc_counter f;
               loc_read := Some cv |}).
Proof.
  intros Hthis Hk Hrd Hlt. unfold worker_step, RunThread_step, finished.
  rewrite Hk; simpl. rewrite Hthis, Hrd.
  by destruct (Z.leb_spec Iterations (loc_i f)); [lia |].
Qed.

Lemma write_step k c f cv v :
  this c = NonAtomicBenchmark cv → threads c !! k = Some f →
  loc_read f = Some v → loc_i f < Iterations →
  worker_step k c
  = Some (with_thread c (NonAtomicBenchmark (wrap64 (v + 1))) k
            {| loc_i := loc_i f + 1; loc_counter := loc_counter f;
               loc_read := None |}).
Proof.
  intros Hthis Hk Hrd Hlt. unfold worker_step, RunThread_step, finished.
  rewrite Hk; simpl. rewrite Hthis, Hrd.
  by destruct (Z.leb_spec Iterations (loc_i f)); [lia |].
Qed.

Lemma with_thread_twice c b b' k f f' :
  with_thread (with_thread c b k f) b' k f' = with_thread c b' k f'.
Proof. unfold with_thread; simpl. by rewrite list_insert_insert_eq. Qed.

Lemma with_thread_lookup c b k f g :
  threads c !! k = Some g → threads (with_thread c b k f) !! k = Some f.
Proof.
  intros Hk. simpl. apply list_lookup_insert_eq. by eapply lookup_lt_Some.
Qed.

(** A thread running alone on the non-atomic shared counter adds every one
    of its increments. *)
Lemma alone_run n k m : ∀ c f cv,
  this c = NonAtomicBenchmark cv → int64 cv → threads c !! k = Some f →
  loc_read f = None → loc_i f + Z.of_nat m ≤ Iterations →
  exec n (alone k m) c
  = Some (with_thread c (NonAtomicBenchmark (wrap64 (cv + Z.of_nat m))) k
            {| loc_i := loc_i f + Z.of_nat m; loc_counter := loc_counter f;
               loc_read := None |}).
Proof.
  induction m as [|m IH]; intros c f cv Hthis Hcv Hk Hrd Hle.
  - change (alone k 0) with (@nil actor). cbn [exec]. f_equal.
    change (Z.of_nat 0) with 0. rewrite !Z.add_0_r, wrap64_small by done.
    destruct c as [b o l t0 t1 p], f as [i cnt rd]; simpl in *. subst.
    unfold with_thread; simpl. by rewrite list_insert_id.
  - change (alone k (S m)) with (Worker k :: Worker k :: alone k m).
    cbn [exec step].
    rewrite (read_step k c f cv Hthis Hk Hrd) by lia. cbn [mbind option_bind].
    erewrite (write_step k _ _ cv cv); cycle 1.
    { done. } { by eapply with_thread_lookup. } { done. } { simpl. lia. }
    cbn [mbind option_bind]. rewrite with_thread_twice.
    erewrite IH; cycle 1.
    { done. } { apply wrap64_range. } { by eapply with_thread_lookup. }
    { done. } { simpl. lia. }
    rewrite with_thread_twice, wrap64_add_l. simpl loc_i. simpl loc_counter.
    do 2 f_equal.
    + do 2 f_equal. lia.
    + f_equal. lia.
Qed.

Section Lossy.
Variable m m' : nat.
Variable c0 : Z.
Variable o : ostream.
Hypothesis Hm : Z.of_nat m = Iterations.
Hypothesis Hm' : Z.of_nat m' = Iterations - 1.
Hypothesis H0 : int64 c0.
Hypothesis Hfit : c0 + Iterations ≤ INT64_MAX.

(** The stream once the prefix of the trial is out. *)
Local Abbreviation flushed :=
  (prefix_flushed "Non-atomic Benchmark" 2 o).

Lemma lossy_run :
  RunWithThreads 2 (lossy_schedule m m') (NonAtomicBenchmark c0, o)
  = Some (NonAtomicBenchmark (c0 + Iterations),
          endl (print (line_suffix 0 0) flushed)).
Proof.
  unfold RunWithThreads, lossy_schedule. cbn [fst snd].
  (* both threads are created; thread 0 reads the counter *)
  assert (exec 2 ([Main 0; Main 0; Main 0; Main 0; Main 0; Main 0; Main 0]
                  ++ [Worker 0])
            (trial_start (NonAtomicBenchmark c0) o)
          = Some {| this := NonAtomicBenchmark c0; cout := flushed;
                    threads := [ {| loc_i := 0; loc_counter := 0;
                                    loc_read := Some c0 |}; frame_init ];
                    startTime := 0; endTime := 0; at_pc := PcJoin 0 |})
    as Hpre by reflexivity.
  rewrite (app_assoc _ [Worker 0]), exec_app, Hpre. cbn [mbind option_bind].
  (* thread 1 runs its whole loop *)
  rewrite exec_app.
  erewrite (alone_run 2 1 m _ frame_init c0); cycle 1.
  { done. } { done. } { done. } { done. } { simpl. lia. }
  cbn [mbind option_bind].
  (* thread 0 writes back what it read, plus one *)
  rewrite exec_app. cbn [exec step].
  erewrite (write_step 0 _ _ _ c0); cycle 1.
  { done. } { done. } { done. } { simpl. unfold Iterations. lia. }
  cbn [mbind option_bind].
  (* and runs the rest of its loop *)
  rewrite exec_app.
  erewrite (alone_run 2 0 m' _ _ (wrap64 (c0 + 1))); cycle 1.
  { done. } { apply wrap64_range. } { done. } { done. } { simpl. lia. }
  cbn [mbind option_bind].
  (* both have finished with [i = Iterations]; the counter is one loop ahead *)
  match goal with
  | |- context [exec 2 _ ?c] =>
      replace c with
        {| this := NonAtomicBenchmark (c0 + Iterations); cout := flushed;
           threads := [ {| loc_i := Iterations; loc_counter := 0;
                           loc_read := None |};
                        {| loc_i := Iterations; loc_counter := 0;
                           loc_read := None |} ];
           startTime := 0; endTime := 0; at_pc := PcJoin 0 |}
  end.
  - reflexivity.
  - unfold with_thread; simpl. rewrite wrap64_add_l.
    rewrite (wrap64_small (c0 + 1 + Z.of_nat m'))
      by (unfold int64, INT64_MAX, Iterations in *; lia).
    f_equal; [f_equal; lia |]. repeat f_equal; lia.
Qed.

End Lossy.

(** X6. With two threads the non-atomic shared counter can lose half of the
    increments. There is a schedule of [RunWithThreads(2)] on a
    [NonAtomicBenchmark] object after which the counter has advanced by
    [Iterations] only, although both threads have run all their
    [Iterations] increments; run serially the same trial advances it by
    [2 * Iterations]. *)
Theorem two_threads_can_lose_half (c0 : Z) (o : ostream) :
  int64 c0 → c0 + Iterations ≤ INT64_MAX →
  (∃ s o',
     RunWithThreads 2 s (NonAtomicBenchmark c0, o)
     = Some (NonAtomicBenchmark (c0 + Iterations), o')) ∧
  (∃ s o',
     RunWithThreads 2 s (NonAtomicBenchmark c0, o)
     = Some (NonAtomicBenchmark (wrap64 (c0 + 2 * Iterations)), o')).
Proof.
  intros H0 Hfit. split.
  - (* the loops have [Iterations] and [Iterations - 1] iterations; the
       numbers are never computed in unary *)
    assert (∃ m, Z.of_nat m = Iterations) as [m Hm].
    { exists (Z.to_nat Iterations). apply Z2Nat.id. by compute. }
    assert (∃ m', Z.of_nat m' = Iterations - 1) as [m' Hm'].
    { exists (Z.to_nat (Iterations - 1)). apply Z2Nat.id. by compute. }
    exists (lossy_schedule m m'). eexists.
    exact (lossy_run m m' c0 o Hm Hm' H0 Hfit).
  - destruct (serial_trial 2 (NonAtomicBenchmark c0) o)
      as (s & b' & o' & Hrun & Hb').
    { by compute. }
    { by eexists. }
    { intros cv ?. by simplify_eq. }
    exists s, o'. by rewrite Hrun, (Hb' c0 eq_refl).
Qed.

(** On a new object the counter ends at [Iterations]. *)
Lemma two_threads_can_lose_half_witness :
  int64 0 ∧ 0 + Iterations ≤ INT64_MAX ∧
  ∃ s o',
    RunWithThreads 2 s (NonAtomicBenchmark 0, cout_init)
    = Some (NonAtomicBenchmark (0 + Iterations), o').
Proof.
  assert (int64 0) as H0 by (unfold int64, INT64_MAX; lia).
  assert (0 + Iterations ≤ INT64_MAX) as Hfit
    by (unfold INT64_MAX, Iterations; lia).
  split; [exact H0 |]. split; [exact Hfit |].
  apply (two_threads_can_lose_half 0 cout_init H0 Hfit).
Defined.

(** ** Loop variables *)

(** X7. The loop variable of a thread never overflows: at every point of a
    trial, under any schedule and on any object, every thread has
    [0 <= i <= Iterations], so that [++i], executed only while
    [i < Iterations], never starts from [INT_MAX]; and a thread has left
    its loop exactly when [i = Iterations]. *)
Theorem loop_variable_in_range (n : N) (b : Benchmark) (o : ostream)
    (s : schedule) (c : config) :
  exec n s (trial_start b o) = Some c →
  Forall (λ f, 0 ≤ loc_i f ≤ Iterations ∧ loc_i f + 1 ≤ INT_MAX ∧
               (finished f = true ↔ loc_i f = Iterations)) (threads c).
Proof.
  intros He.
  pose proof (exec_trial_inv _ _ _ _ _ He) as (_ & Hi & _).
  eapply Forall_impl; [exact Hi |]. intros f Hf; simpl in *.
  split; [done |]. split.
  - unfold INT_MAX, Iterations in *. lia.
  - unfold finished.
    destruct (Z.leb_spec Iterations (loc_i f)); split; intros; (done || lia).
Qed.

Lemma loop_variable_in_range_witness :
  ∃ c, exec 2 [Main 0; Main 0; Main 0; Main 0; Main 0; Worker 0; Main 0;
               Worker 1]
         (trial_start (AtomicBaseline memory_order_relaxed) cout_init)
       = Some c ∧
       Forall (λ f, 0 ≤ loc_i f ≤ Iterations ∧ loc_i f + 1 ≤ INT_MAX ∧
                    (finished f = true ↔ loc_i f = Iterations)) (threads c).
Proof.
  eexists. split; [vm_compute; reflexivity |].
  apply (loop_variable_in_range 2 (AtomicBaseline memory_order_relaxed)
           cout_init
           [Main 0; Main 0; Main 0; Main 0; Main 0; Worker 0; Main 0;
            Worker 1]).
  vm_compute; reflexivity.
Defined.

(** ** Sweeps of any length *)

Lemma GetName_one_line b name :
  GetName b = Some name → count_newlines name = 0%nat.
Proof.
  destruct b as [|cv|Order|Order cv]; simpl; intros H; simplify_eq;
    try reflexivity;
    unfold GetMemoryOrderRepr in H; repeat case_match; simplify_eq/=;
    reflexivity.
Qed.

(** X8. A sweep of any length prints one line per trial. When
    [Run(m)] returns on an object named [name], entered with an empty
    buffer, it has appended to the text written exactly [m] lines, those of
    the thread counts 1 to [m] in order, all with the name [name], and has
    left the buffer empty. The sweep can be run to its end exactly when [m]
    does not exceed [max_size()], the largest thread count [reserve]
    accepts. *)
Theorem Run_prints_one_line_per_trial (b : Benchmark) (name : string) :
  GetName b = Some name →
  (∀ m ss o b' o',
     buffer o = ""%string → Run m ss (b, o) = Some (b', o') →
     ∃ rows,
       map row_key rows = map (pair name) (thread_counts m) ∧
       written o' = written o +:+ lines_text rows ∧
       buffer o' = ""%string ∧
       length rows = N.to_nat m ∧
       count_newlines (lines_text rows) = N.to_nat m) ∧
  (∀ m o, (m ≤ max_size)%N →
     (∀ cv, shared_counter b = Some cv → int64 cv) →
     ∃ ss st', Run m ss (b, o) = Some st') ∧
  (∀ m ss o st', Run m ss (b, o) = Some st' → (m ≤ max_size)%N).
Proof.
  intros Hname. split_and!.
  - intros m ss o b' o' Hbuf H. apply Run_Some_trials in H as [_ H].
    apply (trials_output name) in H as (_ & rows & Hkeys & ->); try done.
    assert (length rows = N.to_nat m) as Hlen.
    { rewrite <- (length_map row_key), Hkeys, length_map.
      apply thread_counts_length. }
    exists rows. split_and!; try done.
    rewrite count_newlines_lines; [done |].
    apply Forall_forall. intros r Hr.
    assert (row_key r ∈ map (pair name) (thread_counts m)) as Hin.
    { rewrite <- Hkeys. apply list_elem_of_fmap. by exists r. }
    apply list_elem_of_fmap in Hin as (k & Hk & _).
    assert (row_name r = name) as -> by (by injection Hk).
    by eapply GetName_one_line.
  - intros m o Hm Hcv.
    destruct (trials_complete (thread_counts m) b o) as (ss & st' & H).
    { by apply thread_counts_le. }
    { split; [by eexists | done]. }
    exists ss, st'. by rewrite Run_trials.
  - intros m ss o st' H. by apply Run_Some_trials in H as [H _].
Qed.

Lemma Run_prints_one_line_per_trial_witness :
  GetName new_NonAtomicBenchmark = Some "Non-atomic Benchmark"%string ∧
  ∀ m ss o b' o',
    buffer o = ""%string →
    Run m ss (new_NonAtomicBenchmark, o) = Some (b', o') →
    ∃ rows,
      map row_key rows = map (pair "Non-atomic Benchmark"%string)
                           (thread_counts m) ∧
      written o' = written o +:+ lines_text rows ∧
      buffer o' = ""%string ∧
      length rows = N.to_nat m ∧
      count_newlines (lines_text rows) = N.to_nat m.
Proof.
  split; [reflexivity |].
  apply (Run_prints_one_line_per_trial new_NonAtomicBenchmark
           "Non-atomic Benchmark" eq_refl).
Defined.

(** ** Empty inputs *)

Lemma no_thread_exec b o s : ∀ c c',
  this c = b → trial_inv 0 b o c →
  exec 0 s c = Some c' → this c' = b ∧ Forall is_main s.
Proof.
  induction s as [|a s IH]; intros c c' Hthis Hinv He; simpl in He.
  - by simplify_eq.
  - destruct (step 0 a c) as [c1|] eqn:Hs; simpl in He; [| done].
    pose proof (step_trial_inv _ _ _ _ _ _ Hinv Hs) as Hinv1.
    destruct a as [now|k]; simpl in Hs.
    + pose proof (main_step_threads _ _ _ _ Hs) as [Hthis1 _].
      destruct (IH c1 c') as [Hb Hmain]; [congruence | done | done |].
      split; [done |]. by constructor.
    + destruct Hinv as (_ & _ & Hlen & Hle & _).
      apply worker_step_inv in Hs as (f & _ & _ & Hk & _).
      apply lookup_lt_Some in Hk. lia.
Qed.

(** X9. Empty inputs. [RunWithThreads(0)] creates no thread: every step of
    a schedule it can follow is a step of the calling thread, and when it
    returns the object is as it was and the line written says
    [numThreads = 0]. [Run(0)] runs no trial and returns at once, leaving
    object and stream as they were. *)
Theorem zero_threads_and_empty_sweep (b : Benchmark) (o : ostream) :
  (∀ s b' o', RunWithThreads 0 s (b, o) = Some (b', o') →
     b' = b ∧ Forall is_main s ∧
     ∃ name t0 t1,
       GetName b = Some name ∧
       written o' = (written o +:+ buffer o) +:+ report_line name 0 t0 t1) ∧
  (is_Some (GetName b) →
   RunWithThreads 0
     [Main 0; Main 0; Main 0; Main 0; Main 0; Main 0; Main 0; Main 0] (b, o)
   ≠ None) ∧
  (∀ ss st', Run 0 ss (b, o) = Some st' ↔ ss = [] ∧ st' = (b, o)).
Proof.
  split_and!.
  - intros s b' o' H.
    pose proof (RunWithThreads_output _ _ _ _ _ _ H)
      as (name & t0 & t1 & Hname & _ & ->).
    apply RunWithThreads_inv in H as (c & He & _ & <- & _).
    destruct (no_thread_exec b o s (trial_start b o) c) as [Hb Hmain];
      [done | apply trial_inv_start | done |].
    split; [done |]. split; [done |]. by exists name, t0, t1.
  - intros [name Hname]. unfold RunWithThreads. cbn [exec step fst snd].
    assert (main_step 0 0 (trial_start b o)
            = Some (set_cout (trial_start b o)
                      (print (line_prefix name 0) o) PcFlush)) as ->.
    { unfold main_step. cbn [at_pc trial_start this cout]. by rewrite Hname. }
    discriminate.
  - intros ss st'. unfold Run. destruct ss as [|s ss]; cbn [Run_loop];
      change (1 <=? 0)%N with false; cbn match.
    + split; [intros H; by simplify_eq | by intros [_ ->]].
    + split; [done | by intros [? _]].
Qed.

(** ** The objects when the program ends *)

Lemma main_loop_sweeps bs : ∀ sss o bs' o',
  main_loop bs sss o = Some (bs', o') →
  Forall2 (λ b b', ∃ ss o1 o2, Run 10 ss (b, o1) = Some (b', o2)) bs bs'.
Proof.
  induction bs as [|b bs IH]; intros [|ss sss] o bs' o' H; simpl in H;
    try done.
  - simplify_eq. constructor.
  - destruct (Run 10 ss (b, o)) as [[b1 o1]|] eqn:Hrun; simpl in H; [| done].
    destruct (main_loop bs sss o1) as [[bs1 o2]|] eqn:Hloop;
      simpl in H; [| done].
    simplify_eq. constructor; [by exists ss, o, o1 | by eapply IH].
Qed.

Lemma trials_same_class ks : ∀ ss b o b' o',
  trials ks ss (b, o) = Some (b', o') → same_class b b'.
Proof.
  induction ks as [|k ks IH]; intros [|s ss] b o b' o' H; simpl in H;
    try done.
  - simplify_eq. apply same_class_refl.
  - destruct (RunWithThreads k s (b, o)) as [[b1 o1]|] eqn:Hrun;
      simpl in H; [| done].
    apply RunWithThreads_output in Hrun as (_ & _ & _ & _ & Hcl & _).
    eapply same_class_trans; [exact Hcl | by eapply IH].
Qed.

Lemma trials_cons k ks s ss st :
  trials (k :: ks) (s :: ss) st
  = st' ← RunWithThreads k s st; trials ks ss st'.
Proof. reflexivity. Qed.

Lemma same_class_baseline b b' : baseline b → same_class b b' → b' = b.
Proof. destruct b, b'; simpl; try done. by intros _ ->. Qed.

Lemma Run_10_after_sweep b ss o b' o' :
  b ∈ benchmarks → Run 10 ss (b, o) = Some (b', o') → after_sweep b b'.
Proof.
  intros Hb H. rewrite Run_10_trials in H.
  assert (int64 0) as H0 by (unfold int64, INT64_MAX; lia).
  assert (int64 Iterations) as HI by (unfold int64, INT64_MAX, Iterations; lia).
  vm_compute in Hb.
  repeat (apply elem_of_cons in Hb as [-> | Hb]);
    try (by apply elem_of_nil in Hb);
    try (apply trials_same_class in H;
         by apply same_class_baseline in H).
  - (* NonAtomicBenchmark *)
    rewrite thread_counts_10 in H. destruct ss as [|s ss]; [done |].
    rewrite trials_cons in H.
    destruct (RunWithThreads 1 s (NonAtomicBenchmark 0, o))
      as [[b1 o1]|] eqn:Hrun; cbn [mbind option_bind] in H; [| done].
    apply solo_trial_counter in Hrun; [| done].
    assert (b1 = NonAtomicBenchmark Iterations) as -> by (by rewrite Hrun).
    apply racy_trials_counter in H as (cv & -> & Hcv); [| done |].
    + exists cv. split; [done |].
      change (sum_counts [2; 3; 4; 5; 6; 7; 8; 9; 10]%N) with 54 in Hcv. lia.
    + change (sum_counts [2; 3; 4; 5; 6; 7; 8; 9; 10]%N) with 54.
      unfold INT64_MAX, Iterations. lia.
  - by apply atomic_trials_counter in H.
  - by apply atomic_trials_counter in H.
  - by apply atomic_trials_counter in H.
  - by apply atomic_trials_counter in H.
  - by apply atomic_trials_counter in H.
  - by apply atomic_trials_counter in H.
Qed.

(** X10. The objects when the program ends. Whatever the schedules, when
    [main] returns the seven baseline objects are as constructed, each of
    the six atomic shared counters holds [55 * Iterations]
    (27,500,000,000: the 1 + 2 + ... + 10 loops of its ten trials), and the
    non-atomic shared counter holds at least [Iterations] (its first trial
    has a single thread and loses nothing) and at most [55 * Iterations]. *)
Theorem program_final_counters :
  (∃ sss r, main sss = Some r) ∧
  ∀ sss code bs' o', main sss = Some (code, bs', o') →
    ∃ cv,
      Iterations ≤ cv ≤ 55 * Iterations ∧
      bs' = [NonAtomicBaseline; NonAtomicBenchmark cv]
            ++ map AtomicBaseline (MEMORY_ORDER_LIST id)
            ++ map (λ Order, AtomicBenchmark Order (55 * Iterations))
                 (MEMORY_ORDER_LIST id).
Proof.
  split; [apply main_complete |].
  intros sss code bs' o' H. unfold main in H.
  destruct (main_loop benchmarks sss cout_init) as [[bs1 o1]|] eqn:Hloop;
    simpl in H; [| done].
  simplify_eq. apply main_loop_sweeps in Hloop.
  assert (Forall2 after_sweep benchmarks bs') as Hall.
  { apply Forall2_same_length_lookup. split; [by eapply Forall2_length |].
    intros j b b' Hb Hb'.
    destruct (Forall2_lookup_lr _ _ _ _ _ _ Hloop Hb Hb')
      as (ss & oa & ob & Hrun).
    eapply Run_10_after_sweep; [| exact Hrun].
    by eapply list_elem_of_lookup_2. }
  clear Hloop. change benchmarks with
    [ NonAtomicBaseline; NonAtomicBenchmark 0;
      AtomicBaseline memory_order_relaxed; AtomicBaseline memory_order_consume;
      AtomicBaseline memory_order_acquire; AtomicBaseline memory_order_release;
      AtomicBaseline memory_order_acq_rel; AtomicBaseline memory_order_seq_cst;
      AtomicBenchmark memory_order_relaxed 0;
      AtomicBenchmark memory_order_consume 0;
      AtomicBenchmark memory_order_acquire 0;
      AtomicBenchmark memory_order_release 0;
      AtomicBenchmark memory_order_acq_rel 0;
      AtomicBenchmark memory_order_seq_cst 0 ] in Hall.
  repeat match goal with
         | H : Forall2 _ (_ :: _) _ |- _ =>
             apply Forall2_cons_inv_l in H as (? & ? & ? & H & ->)
         | H : Forall2 _ [] _ |- _ => apply Forall2_nil_inv_l in H as ->
         end.
  simpl in *.
  match goal with
  | H : ∃ cv, _ ∧ _ |- _ => destruct H as (cv & -> & Hcv)
  end.
  subst. exists cv. split; [done |]. reflexivity.
Qed.

(** ** Reading a line back *)

Lemma parse_dec_size n : parse_size (dec_size n) = Some n.
Proof.
  unfold parse_size, dec_size. rewrite NilZero.usu.
  - simpl. by rewrite DecimalN.Unsigned.of_to.
  - destruct n; simpl; [done | apply DecimalPos.Unsigned.to_uint_nonnil].
Qed.

Lemma parse_dec_long z : parse_long (dec_long z) = Some z.
Proof.
  unfold parse_long, dec_long. rewrite NilZero.isi.
  - simpl. by rewrite DecimalZ.of_to.
  - destruct z; simpl; try done. intros [= H].
    by apply DecimalPos.Unsigned.to_uint_nonnil in H.
  - destruct z; simpl; try done. intros [= H].
    by apply DecimalPos.Unsigned.to_uint_nonnil in H.
Qed.

Lemma no_blank_uint d : no_blank (NilEmpty.string_of_uint d).
Proof. induction d; simpl; done. Qed.

Lemma no_blank_dec_size n : no_blank (dec_size n).
Proof.
  unfold dec_size, NilZero.string_of_uint.
  destruct (N.to_uint n) eqn:E; try done; rewrite <- E; apply no_blank_uint.
Qed.

Lemma no_blank_dec_long z : no_blank (dec_long z).
Proof.
  unfold dec_long, NilZero.string_of_int, NilZero.string_of_uint.
  destruct (Z.to_int z) as [d|d]; destruct d eqn:E; try done; rewrite <- E;
    simpl; try split; try done; apply no_blank_uint.
Qed.

(** Two texts without blanks, each followed by a blank and a rest, are
    equal only part by part. *)
Lemma blank_splits d1 : ∀ d2 r1 r2,
  no_blank d1 → no_blank d2 →
  d1 +:+ String " " r1 = d2 +:+ String " " r2 → d1 = d2 ∧ r1 = r2.
Proof.
  induction d1 as [|a d1 IH]; intros [|a' d2] r1 r2 H1 H2 H.
  - by injection H.
  - injection H as Ha _. destruct H2 as [Hne _]. by subst.
  - injection H as Ha _. destruct H1 as [Hne _]. by subst.
  - injection H as Ha H. destruct H1 as [_ H1], H2 as [_ H2].
    destruct (IH d2 r1 r2 H1 H2 H) as [-> ->]. by subst.
Qed.

Lemma report_line_same_name name n1 n2 t0 t1 t0' t1' :
  report_line name n1 t0 t1 = report_line name n2 t0' t1' →
  n1 = n2 ∧ (t1 - t0) ÷ 1000000 = (t1' - t0') ÷ 1000000.
Proof.
  unfold report_line, line_prefix, line_suffix. rewrite !append_assoc.
  intros H. apply String.app_inj in H. apply String.app_inj in H.
  change (" ... " +:+ ?x)%string with (String " " ("... " +:+ x)) in H.
  apply blank_splits in H as [Hn H]; try apply no_blank_dec_size.
  apply String.app_inj in H.
  change (" ms" +:+ newline) with (String " " ("ms" +:+ newline)) in H.
  apply blank_splits in H as [Hq _]; try apply no_blank_dec_long.
  split.
  - apply (f_equal parse_size) in Hn. rewrite !parse_dec_size in Hn.
    by injection Hn.
  - apply (f_equal parse_long) in Hq. rewrite !parse_dec_long in Hq.
    by injection Hq.
Qed.

(** No name of the program is the beginning of a text that starts with
    another. *)
Lemma names_prefix_free name1 name2 r1 r2 :
  name1 ∈ all_names → name2 ∈ all_names →
  name1 +:+ r1 = name2 +:+ r2 → name1 = name2.
Proof.
  unfold all_names. intros H1 H2 H.
  repeat (apply elem_of_cons in H1 as [-> | H1]);
    try (by apply elem_of_nil in H1);
    repeat (apply elem_of_cons in H2 as [-> | H2]);
    try (by apply elem_of_nil in H2);
    try reflexivity; vm_compute in H; discriminate H.
Qed.

(** X11. A printed line can be read back. Two lines of the program are
    equal only if they carry the same name, the same thread count and the
    same number of milliseconds: the fourteen names never run into each
    other, and the decimal numbers are delimited by blanks. The numbers are
    recovered from their text by the usual decimal reading. *)
Theorem report_line_determines_its_fields
    (name1 name2 : string) (n1 n2 : N) (t0 t1 t0' t1' : Z) :
  name1 ∈ all_names → name2 ∈ all_names →
  report_line name1 n1 t0 t1 = report_line name2 n2 t0' t1' →
  name1 = name2 ∧ n1 = n2 ∧
  (t1 - t0) ÷ 1000000 = (t1' - t0') ÷ 1000000 ∧
  parse_size (dec_size n1) = Some n1 ∧
  parse_long (dec_long ((t1 - t0) ÷ 1000000)) = Some ((t1 - t0) ÷ 1000000).
Proof.
  intros H1 H2 H.
  assert (name1 = name2) as <-.
  { unfold report_line, line_prefix in H. rewrite !append_assoc in H.
    by eapply names_prefix_free. }
  destruct (report_line_same_name _ _ _ _ _ _ _ H) as [-> Hq].
  split_and!; try done; [apply parse_dec_size | apply parse_dec_long].
Qed.

Lemma report_line_determines_its_fields_witness :
  ("Atomic Benchmark (relaxed)" ∈ all_names) ∧
  (report_line "Atomic Benchmark (relaxed)" 4 1000 3501000
   = report_line "Atomic Benchmark (relaxed)" 4 0 3999999) ∧
  ((3501000 - 1000) ÷ 1000000 = (3999999 - 0) ÷ 1000000).
Proof.
  assert ("Atomic Benchmark (relaxed)"%string ∈ all_names) as Hin
    by (unfold all_names; repeat constructor).
  assert (report_line "Atomic Benchmark (relaxed)" 4 1000 3501000
          = report_line "Atomic Benchmark (relaxed)" 4 0 3999999) as Heq
    by reflexivity.
  split; [exact Hin |]. split; [exact Heq |].
  apply (report_line_determines_its_fields _ _ _ _ _ _ _ _ Hin Hin Heq).
Defined.

(** ** The clock and the stream do not steer the trial *)

Lemma step_same_run n g a c d c' :
  same_run c d → step n a c = Some c' →
  ∃ d', step n (retime g a) d = Some d' ∧ same_run c' d'.
Proof.
  intros (Hthis & Hth & Hpc) Hs. destruct a as [now|k]; simpl in *.
  - unfold main_step in *. rewrite <- Hpc, <- Hthis, <- Hth.
    destruct (at_pc c); repeat case_match; simplify_option_eq;
      eexists; (split; [reflexivity |]); by repeat split.
  - unfold worker_step in *. rewrite <- Hthis, <- Hth.
    destruct (threads c !! k) as [f|]; simpl in *; [| done].
    destruct (RunThread_step (this c) f) as [[b' f']|]; simpl in *; [| done].
    simplify_eq. eexists. split; [reflexivity |]. by repeat split.
Qed.

Lemma exec_same_run n g s : ∀ c d c',
  same_run c d → exec n s c = Some c' →
  ∃ d', exec n (map (retime g) s) d = Some d' ∧ same_run c' d'.
Proof.
  induction s as [|a s IH]; intros c d c' Hcd He; simpl in He.
  - simplify_eq. by exists d.
  - destruct (step n a c) as [c1|] eqn:Hs; simpl in He; [| done].
    destruct (step_same_run n g a c d c1 Hcd Hs) as (d1 & Hd1 & Hcd1).
    destruct (IH c1 d1 c' Hcd1 He) as (d' & Hd' & Hcd').
    exists d'. split; [| done]. simpl. by rewrite Hd1.
Qed.

(** X12. Neither the clock nor the stream steers a trial. If a schedule
    can be followed from the entry of [RunWithThreads(n)] with some clock
    readings and some stream, it can be followed with any other readings
    and any other stream, and leads to the same object, the same frames of
    the threads and the same program point; in particular a call that
    returns an object returns the same object then. Only the text
    differs. *)
Theorem clock_and_stream_do_not_steer
    (n : N) (b : Benchmark) (o1 o2 : ostream) (g : Z → Z)
    (s : schedule) (c : config) :
  exec n s (trial_start b o1) = Some c →
  (∃ d, exec n (map (retime g) s) (trial_start b o2) = Some d ∧
        this d = this c ∧ threads d = threads c ∧ at_pc d = at_pc c) ∧
  (at_pc c = PcRet →
   ∃ o2', RunWithThreads n (map (retime g) s) (b, o2) = Some (this c, o2')).
Proof.
  intros He.
  destruct (exec_same_run n g s (trial_start b o1) (trial_start b o2) c)
    as (d & Hd & Hthis & Hth & Hpc); [done | done |].
  split.
  - by exists d.
  - intros Hret. exists (cout d). unfold RunWithThreads; simpl.
    rewrite Hd; simpl. by rewrite <- Hpc, Hret, Hthis.
Qed.

(** Two threads at work, the clock read at another time, another stream. *)
Lemma clock_and_stream_do_not_steer_witness :
  ∃ c d,
    exec 2 [Main 7; Main 7; Main 7; Main 7; Main 7; Worker 0; Main 7;
            Worker 1]
      (trial_start new_NonAtomicBenchmark cout_init) = Some c ∧
    exec 2 (map (retime (λ now, now + 1000))
              [Main 7; Main 7; Main 7; Main 7; Main 7; Worker 0; Main 7;
               Worker 1])
      (trial_start new_NonAtomicBenchmark (print "pending" cout_init))
    = Some d ∧
    this d = this c ∧ threads d = threads c ∧ at_pc d = at_pc c.
Proof.
  eexists.
  assert (exec 2 [Main 7; Main 7; Main 7; Main 7; Main 7; Worker 0; Main 7;
                  Worker 1]
            (trial_start new_NonAtomicBenchmark cout_init) = Some _) as He
    by (vm_compute; reflexivity).
  destruct (clock_and_stream_do_not_steer 2 new_NonAtomicBenchmark cout_init
              (print "pending" cout_init) (λ now, now + 1000) _ _ He)
    as [(d & Hd & Hsame) _].
  exists d. split; [exact He |]. split; [exact Hd | exact Hsame].
Defined.

(** ** Sweeps one after the other *)

(** X13. Sweeps on an atomic shared counter add up. From any value [c0] of
    the counter, [Run(m)] leaves [c0] plus
    [Iterations * m * (m + 1) / 2] (in 64-bit two's complement), whatever
    the schedules; so two sweeps in a row on the same object leave [c0]
    plus the totals of both. For the six memory orders every sweep up to
    [max_size()] can be run. *)
Theorem atomic_sweeps_add_up (Order : memory_order) (c0 : Z) :
  int64 c0 →
  (∀ m ss o b' o',
     Run m ss (AtomicBenchmark Order c0, o) = Some (b', o') →
     b' = AtomicBenchmark Order
            (wrap64 (c0 + Iterations * Z.of_N m * (Z.of_N m + 1) / 2))) ∧
  (∀ m1 m2 ss1 ss2 o b1 o1 b2 o2,
     Run m1 ss1 (AtomicBenchmark Order c0, o) = Some (b1, o1) →
     Run m2 ss2 (b1, o1) = Some (b2, o2) →
     b2 = AtomicBenchmark Order
            (wrap64 (c0 + (Iterations * Z.of_N m1 * (Z.of_N m1 + 1) / 2
                           + Iterations * Z.of_N m2 * (Z.of_N m2 + 1) / 2)))) ∧
  (∀ m o, Order ∈ MEMORY_ORDER_LIST id → (m ≤ max_size)%N →
     ∃ ss b' o', Run m ss (AtomicBenchmark Order c0, o) = Some (b', o')).
Proof.
  intros H0.
  assert (∀ c m ss o b' o', int64 c →
            Run m ss (AtomicBenchmark Order c, o) = Some (b', o') →
            b' = AtomicBenchmark Order
                   (wrap64 (c + Iterations * Z.of_N m * (Z.of_N m + 1) / 2)))
    as Hone.
  { intros c m ss o b' o' Hc H. apply Run_Some_trials in H as [_ H].
    apply atomic_trials_counter in H; [| done]. by rewrite sweep_total. }
  split_and!.
  - intros m ss o b' o'. by apply Hone.
  - intros m1 m2 ss1 ss2 o b1 o1 b2 o2 H1 H2.
    apply Hone in H1; [| done]. subst b1.
    apply Hone in H2; [| apply wrap64_range]. subst b2.
    rewrite wrap64_add_l. do 2 f_equal. lia.
  - intros m o HO Hm.
    destruct (trials_complete (thread_counts m) (AtomicBenchmark Order c0) o)
      as (ss & [b' o'] & H);
      [by apply thread_counts_le | by apply wf_benchmark_atomic |].
    exists ss, b', o'. by rewrite Run_trials.
Qed.

(** The sweep of [main] run a second time on the same object. *)
Lemma atomic_sweeps_add_up_witness :
  int64 0 ∧
  ∀ ss1 ss2 o b1 o1 b2 o2,
    Run 10 ss1 (AtomicBenchmark memory_order_seq_cst 0, o) = Some (b1, o1) →
    Run 10 ss2 (b1, o1) = Some (b2, o2) →
    b2 = AtomicBenchmark memory_order_seq_cst
           (wrap64 (0 + (Iterations * Z.of_N 10 * (Z.of_N 10 + 1) / 2
                         + Iterations * Z.of_N 10 * (Z.of_N 10 + 1) / 2))).
Proof.
  assert (int64 0) as H0 by (unfold int64, INT64_MAX; lia).
  split; [exact H0 |].
  intros ss1 ss2 o b1 o1 b2 o2.
  apply (atomic_sweeps_add_up memory_order_seq_cst 0 H0).
Defined.
